(** * LaTeX note exporter (latexbiport/latexexport.py)

    A shallow embedding of [LatexNoteExporter]: the field transformer
    ([replace_line_breaks], [convert_html_to_latex], [strip_new_lines],
    [escape_latex_chars]), the query builder [db_query] and the document
    assembler [export_note_latex], followed by the properties of the
    exporter's specification. *)

From Stdlib Require Import String Ascii.
From Stdlib Require Import List NArith ZArith Bool Lia Permutation.
From Stdlib Require Import Numbers.DecimalString.
Import ListNotations.

Set Implicit Arguments.

(** ** Python strings

    A Python [str] is a sequence of Unicode code points.  Code points are
    natural numbers; the literals of the source are ASCII and are written
    with [u]. *)

Module Py.

Definition char : Type := N.
Definition str : Type := list char.

Definition u (s : string) : str := map N_of_ascii (list_ascii_of_string s).

(** The line feed, written "\n" in the source. *)
Definition NL : char := 10%N.
Definition nl : str := [NL].

(** [str.isspace] on one code point, which is also the class [\s] of a
    [str] pattern: the ASCII white space 0x09-0x0D, 0x1C-0x20 and the
    Unicode white space beyond it. *)
Definition is_space (c : char) : bool :=
  ((9 <=? c) && (c <=? 13))%N || ((28 <=? c) && (c <=? 32))%N
  || (c =? 133)%N || (c =? 160)%N || (c =? 5760)%N
  || ((8192 <=? c) && (c <=? 8202))%N
  || (c =? 8232)%N || (c =? 8233)%N || (c =? 8239)%N
  || (c =? 8287)%N || (c =? 12288)%N.

(** [s.startswith(p)] *)
Fixpoint startswith (p s : str) : bool :=
  match p, s with
  | [], _ => true
  | _ :: _, [] => false
  | a :: p', b :: s' => (a =? b)%N && startswith p' s'
  end.

(** [s == t] *)
Fixpoint str_eqb (s t : str) : bool :=
  match s, t with
  | [], [] => true
  | a :: s', b :: t' => (a =? b)%N && str_eqb s' t'
  | _, _ => false
  end.

(** [s.find(sub)]: the index of the first occurrence, or -1. *)
Fixpoint find_from (i : Z) (sub s : str) : Z :=
  if startswith sub s then i
  else match s with
       | [] => (-1)%Z
       | _ :: s' => find_from (i + 1) sub s'
       end.

Definition find (s sub : str) : Z := find_from 0 sub s.

(** [s.replace(old, new)]: every occurrence of [old], found from left to
    right and not overlapping, becomes [new].  The recursion restarts after
    the occurrence, on a shorter string; [length s + 1] steps are enough
    ([replace_unfold] below).  With an empty [old], Python puts [new] before
    every character and at the end. *)
Fixpoint replace_go (fuel : nat) (old new s : str) : str :=
  match fuel with
  | O => s
  | S fuel' =>
      if startswith old s then new ++ replace_go fuel' old new (skipn (length old) s)
      else match s with
           | [] => []
           | c :: s' => c :: replace_go fuel' old new s'
           end
  end.

Definition replace (s old new : str) : str :=
  match old with
  | [] => new ++ flat_map (fun c => c :: new) s
  | _ :: _ => replace_go (S (length s)) old new s
  end.

(** [s.strip()] *)
Fixpoint lstrip (s : str) : str :=
  match s with
  | c :: s' => if is_space c then lstrip s' else s
  | [] => []
  end.

Definition rstrip (s : str) : str := rev (lstrip (rev s)).
Definition strip (s : str) : str := rstrip (lstrip s).

(** [sep.join(l)] *)
Fixpoint join (sep : str) (l : list str) : str :=
  match l with
  | [] => []
  | [x] => x
  | x :: l' => x ++ sep ++ join sep l'
  end.

(** [str(n)] of an [int] *)
Definition str_of_int (n : Z) : str := u (NilZero.string_of_int (Z.to_int n)).

(** [str(tuple(l))] of a sequence of [int]s, as an f-string formats it:
    [()], [(1,)], [(1, 2, 3)]. *)
Definition str_of_tuple (l : list Z) : str :=
  match l with
  | [] => u "()"
  | [x] => u "(" ++ str_of_int x ++ u ",)"
  | _ => u "(" ++ join (u ", ") (map str_of_int l) ++ u ")"
  end.

End Py.

Import Py.

(** ** Regular expressions ([re.sub])

    The patterns of the source are sequences of literal characters and of
    character classes under a quantifier, with at most one capturing group,
    which holds one quantified class.  Matching is Python's: a backtracking
    search that tries, for a greedy quantifier, the longest repetition first
    and, for a lazy one, the shortest. *)

Module Re.

Inductive quant : Type :=
| Once       (* [c]   *)
| Star       (* [c*]  *)
| Plus       (* [c+]  *)
| LazyStar   (* [c*?] *)
| LazyPlus.  (* [c+?] *)

Inductive item : Type :=
| Lit (l : str)
| Cls (capture : bool) (p : char -> bool) (q : quant).

Definition pattern : Type := list item.

(** The character classes of the source. *)
Definition dot (c : char) : bool := negb (c =? NL)%N.          (* [.], without DOTALL *)
Definition newline (c : char) : bool := (c =? NL)%N.           (* [\n] *)
Definition space (c : char) : bool := is_space c.              (* [\s] *)
Definition not_lt (c : char) : bool := negb (c =? 60)%N.       (* [[^<]] *)
Definition one_of (l : str) (c : char) : bool :=               (* [[...]] *)
  existsb (fun d => (d =? c)%N) l.

Section Repeat.
Variable R : Type.
Variable p : char -> bool.

  (** The continuation [k] receives the text the repetition matched and the
      text left; [None] makes the repetition try its next length. *)
Definition once (k : str -> str -> option R) (s : str) : option R :=
    match s with
    | c :: s' => if p c then k [c] s' else None
    | [] => None
    end.

Fixpoint greedy (k : str -> str -> option R) (s : str) : option R :=
    match s with
    | c :: s' =>
        if p c then
          match greedy (fun m => k (c :: m)) s' with
          | Some r => Some r
          | None => k [] s
          end
        else k [] s
    | [] => k [] []
    end.

Fixpoint lazy (k : str -> str -> option R) (s : str) : option R :=
    match k [] s with
    | Some r => Some r
    | None =>
        match s with
        | c :: s' => if p c then lazy (fun m => k (c :: m)) s' else None
        | [] => None
        end
    end.

Definition repeat (q : quant) (k : str -> str -> option R) : str -> option R :=
    match q with
    | Once => once k
    | Star => greedy k
    | LazyStar => lazy k
    | Plus => once (fun m1 => greedy (fun m => k (m1 ++ m)))
    | LazyPlus => once (fun m1 => lazy (fun m => k (m1 ++ m)))
    end.
End Repeat.

(** A match at the start of [s]: group 1, when a captured class was
    crossed, and the text after the match.  [accept] is the test on the text
    left that the caller imposes on the whole match. *)
Fixpoint match_items (accept : str -> bool) (pat : pattern) (g : option str) (s : str)
  : option (option str * str) :=
  match pat with
  | [] => if accept s then Some (g, s) else None
  | Lit l :: pat' =>
      if startswith l s then match_items accept pat' g (skipn (length l) s) else None
  | Cls capture p q :: pat' =>
      repeat p q (fun m rest => match_items accept pat' (if capture then Some m else g) rest) s
  end.

(** Replacement templates: literal text and [\1]. *)
Inductive ritem : Type :=
| RLit (l : str)
| RGroup1.

Definition template : Type := list ritem.

Definition expand (repl : template) (g : option str) : str :=
  flat_map (fun r => match r with
                     | RLit l => l
                     | RGroup1 => match g with Some m => m | None => [] end
                     end) repl.

(** [re.sub(pat, repl, s)]: the leftmost match is replaced and the search
    resumes where it ended.  After an empty match the search resumes at the
    same place and the match found there must be non-empty
    ([must_advance]); a place where nothing matches is copied. *)
Fixpoint sub_go (fuel : nat) (pat : pattern) (repl : template)
         (must_advance : bool) (s : str) : str :=
  match fuel with
  | O => s
  | S fuel' =>
      let accept rest := negb (must_advance && (length rest =? length s)%nat) in
      match match_items accept pat None s with
      | Some (g, rest) =>
          expand repl g
            ++ sub_go fuel' pat repl (length rest =? length s)%nat rest
      | None =>
          match s with
          | [] => []
          | c :: s' => c :: sub_go fuel' pat repl false s'
          end
      end
  end.

Definition sub (pat : pattern) (repl : template) (s : str) : str :=
  sub_go (2 * length s + 2) pat repl false s.

End Re.

Import Re.

(** ** Exceptions *)

Inductive exn : Type :=
| Exception (msg : str)
| IndexError
| TypeError
| UnboundLocalError (name : str).

Inductive result (A : Type) : Type :=
| Ok (a : A)
| Raise (e : exn).

Arguments Ok {A} a.
Arguments Raise {A} e.

Definition bind {A B : Type} (r : result A) (f : A -> result B) : result B :=
  match r with
  | Ok a => f a
  | Raise e => Raise e
  end.

Notation "x <- r ;; k" := (bind r (fun x => k))
  (at level 61, r at next level, right associativity).

(** ** The host application

    What the exporter reads from Anki: the rows of the notes table, the note
    types with their LaTeX header and footer, the collection with its
    database and its note type manager, and the options of an export. *)

Module Anki.

(** One row of the query of [db_query]:
    [n.guid, n.id, n.flds, n.tags, n.mid]. *)
Record Row : Type := {
  guid : str;
  note_id : Z;
  flds : str;
  tags : str;
  notetype_id : Z
}.

(** The two keys of a note type that the exporter reads. *)
Record Notetype : Type := {
  latexPre : str;
  latexPost : str
}.

(** [col.db.execute(query)] and [col.models.get(id)], which is [None] for
    an unknown id. *)
Record Collection : Type := {
  db_execute : str -> list Row;
  models_get : Z -> option Notetype
}.

(** Modelled from the spec: the selection criterion [ExportLimit] of
    [anki.collection], whose declaration is not part of the exporter: the
    by-container variant, the by-explicit-identifiers variant, and any value
    of another type, named by its type. *)
Inductive ExportLimit : Type :=
| DeckIdLimit (deck_id : Z)
| NoteIdsLimit (note_ids : list Z)
| OtherLimit (type_name : str).

Record ExportOptions : Type := {
  out_path : str;
  include_guid : bool;
  include_tags : bool;
  limit : ExportLimit
}.

(** [anki.utils.split_fields]: [flds.split("\x1f")]. *)
Fixpoint split_fields (s : str) : list str :=
  match s with
  | [] => [[]]
  | c :: s' =>
      if (c =? 31)%N then [] :: split_fields s'
      else match split_fields s' with
           | f :: fs => (c :: f) :: fs
           | [] => [[c]]
           end
  end.

End Anki.

Import Anki.

(** ** The exporter *)

Module LatexNoteExporter.

(** What [export_note_latex] changes: the attribute [self.count] and the
    files written, the latest first. *)
Record State : Type := {
  count : option nat;
  files : list (str * str)
}.

Definition TAB : str := u "    ".

Definition db_query (limit : ExportLimit) : result str :=
  match limit with
  | DeckIdLimit deck_id =>
      Ok (u "SELECT n.guid, n.id, n.flds, n.tags, n.mid "
          ++ u "FROM notes n JOIN cards c ON n.id = c.nid "
          ++ u "WHERE c.did IN "
          ++ u "(SELECT id FROM decks "
          ++ u "WHERE name LIKE ("
          ++ u "SELECT name FROM decks WHERE id=" ++ str_of_int deck_id ++ u ") || '%')")
  | NoteIdsLimit note_ids =>
      Ok (u "SELECT n.guid, n.id, n.flds, n.tags, n.mid "
          ++ u "FROM notes n JOIN cards c ON n.id = c.nid "
          ++ u "WHERE n.id IN " ++ str_of_tuple note_ids)
  | OtherLimit _ =>
      Raise (Exception (u "ExportLimit does neither have type DeckIdLimit nor NoteIdsLimit"))
  end.

Definition replace_line_breaks (text : str) : str :=
  (* Remove plain-text line breaks *)
  let text := replace text nl [] in
  (* Convert some html *)
  let htmldict :=
    [ (u "<br>", nl);
      (u "<br />", nl);
      (u "<div>", nl);
      (u "</div>", []);
      (u "&nbsp;", u " ") ] in
  fold_left (fun text kv => replace text (fst kv) (snd kv)) htmldict text.

Definition strip_new_lines (text : str) : str :=
  strip (sub [Lit nl; Cls false space Star; Cls false newline Plus]
             [RLit (nl ++ nl)] text).

Definition escape_latex_chars (text : str) : str :=
  sub [Cls true (one_of (u "#$%^&_}{~")) Once] [RLit (u "\"); RGroup1] text.

Definition convert_html_to_latex (text : str) : str :=
  (* Replace html specifc characters *)
  let htmldict := [ (u "&amp;", u "&"); (u "&lt;", u "<"); (u "&gt;", u ">") ] in
  let text := fold_left (fun text kv => replace text (fst kv) (snd kv)) htmldict text in
  (* Remove latex marks and any surrounding line breaks *)
  let text := sub [Cls false newline Star; Lit (u "[latex]")] [] text in
  let text := sub [Lit (u "[/latex]"); Cls false newline Star] [] text in
  (* Replace <ul> *)
  let text := sub [Lit (u "<ul"); Cls false dot LazyStar; Lit (u ">")]
                  [RLit (u "\begin{itemize}" ++ nl)] text in
  let text := sub [Lit (u "</ul>")] [RLit (u "\end{itemize}")] text in
  (* Replace <ol> *)
  let text := sub [Lit (u "<ol"); Cls false dot LazyStar; Lit (u ">")]
                  [RLit (u "\begin{enumerate}" ++ nl)] text in
  let text := sub [Lit (u "</ol>")] [RLit (u "\end{enumerate}")] text in
  (* Replace <li> *)
  let text := sub [Lit (u "<li"); Cls false dot LazyStar; Lit (u ">")]
                  [RLit (u "\item ")] text in
  let text := sub [Lit (u "</li>")] [RLit nl] text in
  (* Replace bold text to latex bold *)
  let text := sub [Lit (u "<b>"); Cls true dot LazyStar; Lit (u "</b>")]
                  [RLit (u "\textbf{"); RGroup1; RLit (u "}")] text in
  (* Convert italic to latex italic *)
  let text := sub [Lit (u "<i>"); Cls true dot LazyStar; Lit (u "</i>")]
                  [RLit (u "\textit{"); RGroup1; RLit (u "}")] text in
  (* Replace <i> underline *)
  let text := sub [Lit (u "<u>"); Cls true dot LazyStar; Lit (u "</u>")]
                  [RLit (u "\underline{"); RGroup1; RLit (u "}")] text in
  (* Replace <sub> subscript *)
  let text := sub [Lit (u "<sub>"); Cls true dot LazyStar; Lit (u "</sub>")]
                  [RLit (u "\textsubscript{"); RGroup1; RLit (u "}")] text in
  (* Replace <sup> superscript *)
  let text := sub [Lit (u "<sup>"); Cls true dot LazyStar; Lit (u "</sup>")]
                  [RLit (u "\textsuperscript{"); RGroup1; RLit (u "}")] text in
  (* Fix Double Newline *)
  let text := sub [Lit nl; Cls false space Star; Cls false newline Plus] [RLit nl] text in
  (* Remove any remaining html tags *)
  let text := sub [Lit (u "<"); Cls false not_lt LazyPlus; Lit (u ">")] [] text in
  text.

(** The body of the loop over the fields of a note: the entry it appends to
    [note_lines]. *)
Definition export_field (field : str) : str :=
  let field := replace_line_breaks field in
  if negb (find field (u "[latex]") =? -1)%Z then
    (* Treat as latex field *)
    let field := convert_html_to_latex field in
    (* Export field as xfield if it consists of a single line *)
    if (find field nl =? -1)%Z then
      TAB ++ u "\xfield{" ++ field ++ u "}"
    else
      let field := strip_new_lines field in
      let field := TAB ++ TAB ++ replace field nl (nl ++ TAB ++ TAB) in
      TAB ++ u "\begin{field}" ++ nl ++ field ++ nl ++ TAB ++ u "\end{field}"
  else
    (* Treat as plain-text field *)
    (* Export field as xplain field if it consists of a single line *)
    if (find field nl =? -1)%Z then
      TAB ++ u "\xplain{" ++ field ++ u "}"
    else
      let field := convert_html_to_latex field in
      let field := strip_new_lines field in
      let field := TAB ++ TAB ++ replace field nl (nl ++ TAB ++ TAB) in
      TAB ++ u "\begin{plain}" ++ nl ++ field ++ nl ++ TAB ++ u "\end{plain}".

(** [while note_lines[-1] == TAB + r"\xplain{}": note_lines.pop()], on the
    lines in reverse, so that the last line is the head of the list; the
    subscript [-1] of an empty list raises [IndexError]. *)
Fixpoint trim_loop (rev_lines : list str) : result (list str) :=
  match rev_lines with
  | [] => Raise IndexError
  | l :: rest =>
      if str_eqb l (TAB ++ u "\xplain{}") then trim_loop rest else Ok rev_lines
  end.

Definition remove_empty_fields (note_lines : list str) : result (list str) :=
  r <- trim_loop (rev note_lines) ;; Ok (rev r).

(** [note_lines] when the loop over the fields is left. *)
Definition untrimmed_lines (options : ExportOptions) (row : Row) : list str :=
  let note_lines := [u "\begin{note}"] in
  (* Currently only exports note_id as unique identifier instead of guid *)
  let note_lines :=
    if include_guid options then
      note_lines ++ [u "\xplain{" ++ escape_latex_chars (str_of_int (note_id row)) ++ u "}"]
    else note_lines in
  fold_left (fun note_lines field => note_lines ++ [export_field field])
            (split_fields (flds row)) note_lines.

(** The lines of the tags, appended after the trim. *)
Definition tag_lines (options : ExportOptions) (row : Row) : list str :=
  if include_tags options then
    let cleantag := strip (tags row) in
    if negb (str_eqb cleantag []) then [TAB ++ u "\tags{" ++ strip (tags row) ++ u "}"]
    else []
  else [].

(** [note_lines] at the end of the body of the loop over the rows. *)
Definition note_lines (options : ExportOptions) (row : Row) : result (list str) :=
  note_lines <- remove_empty_fields (untrimmed_lines options row) ;;
  let note_lines := note_lines ++ tag_lines options row in
  Ok (note_lines ++ [u "\end{note}" ++ nl]).

(** The entry one row appends to [notes]. *)
Definition export_row (options : ExportOptions) (row : Row) : result str :=
  note_lines <- note_lines options row ;;
  Ok (join nl note_lines).

(** The loop over the rows.  Its state is the local variable [model], not
    bound before the first row, and the list [notes]. *)
Fixpoint export_rows (col : Collection) (options : ExportOptions) (rows : list Row)
         (model : option (option Notetype)) (notes : list str)
  : result (option (option Notetype) * list str) :=
  match rows with
  | [] => Ok (model, notes)
  | row :: rows' =>
      let model := Some (models_get col (notetype_id row)) in
      note <- export_row options row ;;
      export_rows col options rows' model (notes ++ [note])
  end.

Definition export_note_latex (col : Collection) (options : ExportOptions) (self : State)
  : result unit * State :=
  match db_query (limit options) with
  | Raise e => (Raise e, self)
  | Ok query =>
      match export_rows col options (db_execute col query) None [] with
      | Raise e => (Raise e, self)
      | Ok (model, notes) =>
          let self := {| count := Some (length notes); files := files self |} in
          match model with
          | None => (Raise (UnboundLocalError (u "model")), self)
          | Some None => (Raise TypeError, self)
          | Some (Some model) =>
              let out :=
                u "% -*- coding: utf-8 -*-" ++ nl
                ++ latexPre model
                ++ nl
                ++ join nl notes
                ++ nl
                ++ latexPost model in
              (Ok tt, {| count := count self; files := (out_path options, out) :: files self |})
          end
      end
  end.

End LatexNoteExporter.

Import LatexNoteExporter.

(** ** Vocabulary of the specification *)

(** The empty one-line plain field, the entry the trim removes. *)
Definition EMPTY_FIELD : str := TAB ++ u "\xplain{}".

Definition BEGIN_NOTE : str := u "\begin{note}".
Definition END_NOTE : str := u "\end{note}" ++ nl.

(** The first line of every document. *)
Definition CODING_LINE : str := u "% -*- coding: utf-8 -*-" ++ nl.

(** The message of the error of [db_query]. *)
Definition LIMIT_ERROR : str :=
  u "ExportLimit does neither have type DeckIdLimit nor NoteIdsLimit".

(** The two selection criteria that [db_query] answers. *)
Definition supported (limit : ExportLimit) : bool :=
  match limit with
  | DeckIdLimit _ | NoteIdsLimit _ => true
  | OtherLimit _ => false
  end.

(** The match [re.sub] looks for at the start of [s]. *)
Definition match_at (pat : pattern) (s : str) : option (option str * str) :=
  match_items (fun _ => true) pat None s.

(** No character of [chars] is in [s]. *)
Definition without (chars s : str) : bool :=
  forallb (fun c => negb (one_of chars c)) s.

(** The characters [escape_latex_chars] looks for. *)
Definition SPECIALS : str := u "#$%^&_}{~".

(** [sub] occurs in [s]. *)
Definition occurs (sub s : str) : Prop := exists p q, s = p ++ sub ++ q.

(** The replacements of a table, applied in its order: the loop
    [for k, v in htmldict.items(): text = text.replace(k, v)]. *)
Definition apply_table (table : list (str * str)) (text : str) : str :=
  fold_left (fun text kv => replace text (fst kv) (snd kv)) table text.

(** The table of [replace_line_breaks], in the order of the dictionary. *)
Definition BR : str * str := (u "<br>", nl).
Definition BR_SLASH : str * str := (u "<br />", nl).
Definition DIV : str * str := (u "<div>", nl).
Definition DIV_END : str * str := (u "</div>", []).
Definition NBSP : str * str := (u "&nbsp;", u " ").
Definition BREAK_TABLE : list (str * str) := [BR; BR_SLASH; DIV; DIV_END; NBSP].

(** [a] and [b] differ at a place that both have: neither starts the
    other. *)
Fixpoint diverge (a b : str) : bool :=
  match a, b with
  | c :: a', d :: b' => negb (c =? d)%N || diverge a' b'
  | _, _ => false
  end.



(** The three stages of [convert_html_to_latex]: the entities, the marks of
    a verbatim zone, the tags. *)
Definition decode_entities (text : str) : str :=
  fold_left (fun text kv => replace text (fst kv) (snd kv))
            [ (u "&amp;", u "&"); (u "&lt;", u "<"); (u "&gt;", u ">") ] text.

Definition remove_marks (text : str) : str :=
  sub [Lit (u "[/latex]"); Cls false newline Star] []
      (sub [Cls false newline Star; Lit (u "[latex]")] [] text).

Definition rewrite_tags (text : str) : str :=
  let text := sub [Lit (u "<ul"); Cls false dot LazyStar; Lit (u ">")]
                  [RLit (u "\begin{itemize}" ++ nl)] text in
  let text := sub [Lit (u "</ul>")] [RLit (u "\end{itemize}")] text in
  let text := sub [Lit (u "<ol"); Cls false dot LazyStar; Lit (u ">")]
                  [RLit (u "\begin{enumerate}" ++ nl)] text in
  let text := sub [Lit (u "</ol>")] [RLit (u "\end{enumerate}")] text in
  let text := sub [Lit (u "<li"); Cls false dot LazyStar; Lit (u ">")]
                  [RLit (u "\item ")] text in
  let text := sub [Lit (u "</li>")] [RLit nl] text in
  let text := sub [Lit (u "<b>"); Cls true dot LazyStar; Lit (u "</b>")]
                  [RLit (u "\textbf{"); RGroup1; RLit (u "}")] text in
  let text := sub [Lit (u "<i>"); Cls true dot LazyStar; Lit (u "</i>")]
                  [RLit (u "\textit{"); RGroup1; RLit (u "}")] text in
  let text := sub [Lit (u "<u>"); Cls true dot LazyStar; Lit (u "</u>")]
                  [RLit (u "\underline{"); RGroup1; RLit (u "}")] text in
  let text := sub [Lit (u "<sub>"); Cls true dot LazyStar; Lit (u "</sub>")]
                  [RLit (u "\textsubscript{"); RGroup1; RLit (u "}")] text in
  let text := sub [Lit (u "<sup>"); Cls true dot LazyStar; Lit (u "</sup>")]
                  [RLit (u "\textsuperscript{"); RGroup1; RLit (u "}")] text in
  let text := sub [Lit nl; Cls false space Star; Cls false newline Plus] [RLit nl] text in
  sub [Lit (u "<"); Cls false not_lt LazyPlus; Lit (u ">")] [] text.





(** Two replacements that cannot interfere: what one writes is not empty
    and shares no character with the text the other looks for, neither text
    begins inside the other, and neither starts the other. *)
Definition independent (r1 r2 : str * str) : bool :=
  let '(a, x) := r1 in
  let '(b, y) := r2 in
  negb (str_eqb x []) && negb (str_eqb y [])
  && without x b && without y a
  && without (firstn 1 b) (tl a) && without (firstn 1 a) (tl b)
  && diverge a b.

(** The identifier line of a row. *)
Definition id_line (row : Row) : str :=
  u "\xplain{" ++ escape_latex_chars (str_of_int (note_id row)) ++ u "}".

(** ** Sample inputs *)

Definition sample_type : Notetype := {| latexPre := u "PRE"; latexPost := u "POST" |}.
Definition other_type : Notetype := {| latexPre := u "pre2"; latexPost := u "post2" |}.

Definition sample_row : Row :=
  {| guid := u "Jx#1"; note_id := 123; flds := u "Front" ++ [31%N] ++ u "Back";
     tags := u " t1 t2 "; notetype_id := 1 |}.

Definition other_row : Row :=
  {| guid := u "Ky$2"; note_id := 124; flds := u "Q"; tags := []; notetype_id := 2 |}.

(** A note whose three fields are empty. *)
Definition empty_row : Row :=
  {| guid := u "Lz%3"; note_id := 125; flds := [31%N; 31%N]; tags := u "t";
     notetype_id := 1 |}.

Definition sample_col (rows : list Row) : Collection :=
  {| db_execute := fun _ => rows;
     models_get := fun id => if (id =? 1)%Z then Some sample_type
                             else if (id =? 2)%Z then Some other_type
                             else None |}.

Definition sample_options (guid tags : bool) (limit : ExportLimit) : ExportOptions :=
  {| out_path := u "notes.tex"; include_guid := guid; include_tags := tags;
     limit := limit |}.

Definition fresh : State := {| count := None; files := [] |}.

(** ** Strings *)

Unset Implicit Arguments.

Lemma str_eqb_eq (s t : str) : str_eqb s t = true <-> s = t.
Proof.
  revert t; induction s as [|a s IH]; intros [|b t]; simpl; split;
    try congruence; try discriminate.
  - rewrite andb_true_iff, N.eqb_eq, IH. intros [-> ->]; reflexivity.
  - intros [= -> ->]. rewrite N.eqb_refl. apply IH. reflexivity.
Qed.

Lemma str_eqb_neq (s t : str) : str_eqb s t = false <-> s <> t.
Proof.
  rewrite <- str_eqb_eq. destruct (str_eqb s t); split; congruence.
Qed.

Lemma str_eqb_refl (s : str) : str_eqb s s = true.
Proof. apply str_eqb_eq; reflexivity. Qed.

Lemma startswith_app (p t : str) : startswith p (p ++ t) = true.
Proof.
  induction p as [|a p IH]; simpl; [reflexivity|].
  rewrite N.eqb_refl; exact IH.
Qed.

Lemma startswith_inv (p s : str) :
  startswith p s = true -> s = p ++ skipn (length p) s.
Proof.
  revert s; induction p as [|a p IH]; intros [|b s]; simpl;
    try reflexivity; try discriminate.
  rewrite andb_true_iff, N.eqb_eq. intros [-> H]. f_equal. apply IH, H.
Qed.

(** *** Occurrences and [find] *)

Lemma occurs_cons (sub s : str) (c : char) :
  occurs sub (c :: s) <-> startswith sub (c :: s) = true \/ occurs sub s.
Proof.
  split.
  - intros ([|d p] & q & E).
    + left. simpl in E. rewrite E. apply startswith_app.
    + right. injection E as _ E. exists p, q. exact E.
  - intros [H|(p & q & E)].
    + exists [], (skipn (length sub) (c :: s)). apply startswith_inv, H.
    + exists (c :: p), q. simpl. now rewrite E.
Qed.

Lemma find_from_spec (sub s : str) (i : Z) :
  (0 <= i)%Z ->
  (find_from i sub s = (-1)%Z /\ ~ occurs sub s)
  \/ ((i <= find_from i sub s)%Z /\ occurs sub s).
Proof.
  revert i; induction s as [|c s IH]; intros i Hi; simpl find_from.
  - destruct (startswith sub []) eqn:E.
    + right. split; [lia|]. exists [], []. destruct sub; [reflexivity|discriminate].
    + left. split; [reflexivity|]. intros (p & q & H).
      destruct p; [|discriminate]. destruct sub; discriminate.
  - destruct (startswith sub (c :: s)) eqn:E.
    + right. split; [lia|]. apply occurs_cons. now left.
    + destruct (IH (i + 1)%Z ltac:(lia)) as [[H1 H2]|[H1 H2]].
      * left. split; [exact H1|]. rewrite occurs_cons. intros [H|H]; congruence.
      * right. split; [lia|]. apply occurs_cons. now right.
Qed.

(** [s.find(sub) == -1] says that [sub] does not occur in [s]. *)
Lemma find_none (s sub : str) : (find s sub =? -1)%Z = true <-> ~ occurs sub s.
Proof.
  unfold find. rewrite Z.eqb_eq.
  destruct (find_from_spec sub s 0%Z) as [[H1 H2]|[H1 H2]]; [lia| |].
  - tauto.
  - split; [lia|tauto].
Qed.

Lemma find_present (s sub : str) : occurs sub s -> (find s sub =? -1)%Z = false.
Proof.
  intros Ho. destruct (find s sub =? -1)%Z eqn:E; [|reflexivity].
  apply find_none in E. contradiction.
Qed.

Lemma occurs_In (c : char) (l s : str) : occurs (c :: l) s -> In c s.
Proof. intros (p & q & ->). apply in_or_app. right. now left. Qed.

(** *** [replace] *)

Lemma replace_go_fuel (old new : str) (n m : nat) (s : str) :
  old <> [] -> (length s < n)%nat -> (length s < m)%nat ->
  replace_go n old new s = replace_go m old new s.
Proof.
  intros Hold. revert m s; induction n as [|n IH]; intros m s Hn Hm; [lia|].
  destruct m as [|m]; [lia|]. simpl.
  destruct (startswith old s) eqn:E.
  - f_equal. assert (length (skipn (length old) s) < length s)%nat.
    { apply startswith_inv in E. rewrite E at 2. rewrite length_app.
      destruct old; [congruence|]. simpl. lia. }
    apply IH; lia.
  - destruct s as [|c s]; [reflexivity|]. f_equal. simpl in Hn, Hm. apply IH; lia.
Qed.

Lemma replace_nil (old new : str) : old <> [] -> replace [] old new = [].
Proof. destruct old; [congruence|]. reflexivity. Qed.

Lemma replace_go_S (n : nat) (old new s : str) :
  replace_go (S n) old new s =
    if startswith old s then new ++ replace_go n old new (skipn (length old) s)
    else match s with
         | [] => []
         | c :: s' => c :: replace_go n old new s'
         end.
Proof. reflexivity. Qed.

Lemma replace_hit (old new t : str) :
  old <> [] -> replace (old ++ t) old new = new ++ replace t old new.
Proof.
  intros Hold. destruct old as [|a old]; [congruence|]. unfold replace.
  rewrite replace_go_S, startswith_app, skipn_app, skipn_all, Nat.sub_diag.
  simpl skipn. simpl app at 2. f_equal.
  apply replace_go_fuel; [discriminate| |lia].
  simpl. rewrite length_app. lia.
Qed.

Lemma replace_miss (old new s : str) (c : char) :
  startswith old (c :: s) = false ->
  replace (c :: s) old new = c :: replace s old new.
Proof.
  intros E. destruct old as [|a old]; [discriminate|]. unfold replace.
  rewrite replace_go_S, E. reflexivity.
Qed.

Lemma startswith_head (a c : char) (old s : str) :
  a <> c -> startswith (a :: old) (c :: s) = false.
Proof. intros H. simpl. apply N.eqb_neq in H. now rewrite H. Qed.

(** A text without the first character of [old] is left as it is. *)
Lemma replace_absent (a : char) (old new s : str) :
  hd_error old = Some a -> ~ In a s -> replace s old new = s.
Proof.
  destruct old as [|a' old]; [discriminate|]. intros [= ->].
  induction s as [|c s IH]; intros H; [reflexivity|].
  rewrite replace_miss.
  - f_equal. apply IH. intros Hin. apply H. now right.
  - apply startswith_head. intros ->. apply H. now left.
Qed.

(** *** [re.sub] *)

Section Matching.
Variable R : Type.
Variable p : char -> bool.

Lemma greedy_inv (k : str -> str -> option R) (s : str) (r : R) :
    greedy p k s = Some r -> exists m rest, s = m ++ rest /\ k m rest = Some r.
Proof.
    revert k; induction s as [|c s IH]; intros k; simpl.
    - intros H. exists [], []. auto.
    - destruct (p c).
      + destruct (greedy p (fun m => k (c :: m)) s) eqn:E.
        * intros [= ->]. apply IH in E as (m & rest & -> & Hk).
          exists (c :: m), rest. auto.
        * intros H. exists [], (c :: s). auto.
      + intros H. exists [], (c :: s). auto.
Qed.

Lemma lazy_inv (k : str -> str -> option R) (s : str) (r : R) :
    lazy p k s = Some r -> exists m rest, s = m ++ rest /\ k m rest = Some r.
Proof.
    revert k; induction s as [|c s IH]; intros k; simpl.
    - destruct (k [] []) eqn:E; [|discriminate]. intros [= ->]. exists [], []. auto.
    - destruct (k [] (c :: s)) eqn:E.
      + intros [= ->]. exists [], (c :: s). auto.
      + destruct (p c); [|discriminate]. intros H.
        apply IH in H as (m & rest & -> & Hk). exists (c :: m), rest. auto.
Qed.

Lemma repeat_inv (q : quant) (k : str -> str -> option R) (s : str) (r : R) :
    repeat p q k s = Some r -> exists m rest, s = m ++ rest /\ k m rest = Some r.
Proof.
    destruct q; simpl; unfold once.
    - destruct s as [|c s]; [discriminate|]. destruct (p c); [|discriminate].
      intros H. exists [c], s. auto.
    - apply greedy_inv.
    - destruct s as [|c s]; [discriminate|]. destruct (p c); [|discriminate].
      intros H. apply greedy_inv in H as (m & rest & -> & Hk). exists (c :: m), rest. auto.
    - apply lazy_inv.
    - destruct s as [|c s]; [discriminate|]. destruct (p c); [|discriminate].
      intros H. apply lazy_inv in H as (m & rest & -> & Hk). exists (c :: m), rest. auto.
Qed.
End Matching.

(** A match leaves a suffix of the text, which the caller accepts. *)
Lemma match_items_inv (accept : str -> bool) (pat : pattern) (g g' : option str)
      (s rest : str) :
  match_items accept pat g s = Some (g', rest) ->
  accept rest = true /\ exists m, s = m ++ rest.
Proof.
  revert g s; induction pat as [|[l|capture p q] pat IH]; intros g s; simpl.
  - destruct (accept s) eqn:E; [|discriminate]. intros [= -> ->]. split; [exact E|].
    now exists [].
  - destruct (startswith l s) eqn:E; [|discriminate]. intros H.
    apply IH in H as [Ha [m Hm]]. split; [exact Ha|].
    exists (l ++ m). rewrite <- app_assoc, <- Hm. apply startswith_inv, E.
  - intros H. apply repeat_inv in H as (m & r & -> & H).
    apply IH in H as [Ha [m' ->]]. split; [exact Ha|].
    exists (m ++ m'). now rewrite app_assoc.
Qed.

Lemma sub_go_fuel (pat : pattern) (repl : template) (n m : nat) (b : bool) (s : str) :
  (2 * length s + (if b then 1 else 2) <= n)%nat ->
  (2 * length s + (if b then 1 else 2) <= m)%nat ->
  sub_go n pat repl b s = sub_go m pat repl b s.
Proof.
  revert m b s; induction n as [|n IH]; intros m b s Hn Hm.
  { destruct b; lia. }
  destruct m as [|m]; [destruct b; lia|]. simpl.
  destruct (match_items _ pat None s) as [[g rest]|] eqn:E.
  - f_equal. apply match_items_inv in E as [Ha [x ->]].
    rewrite length_app in *.
    destruct (length rest =? length x + length rest)%nat eqn:El.
    + rewrite andb_true_r in Ha. destruct b; [discriminate|]. apply IH; lia.
    + apply Nat.eqb_neq in El. apply IH; destruct b; lia.
  - destruct s as [|c s]; [reflexivity|]. f_equal. simpl in Hn, Hm.
    apply IH; destruct b; lia.
Qed.

Lemma sub_unfold (pat : pattern) (repl : template) (s : str) :
  sub pat repl s =
    match match_at pat s with
    | Some (g, rest) =>
        expand repl g ++ sub_go (2 * length s + 1) pat repl (length rest =? length s)%nat rest
    | None =>
        match s with
        | [] => []
        | c :: s' => c :: sub_go (2 * length s + 1) pat repl false s'
        end
    end.
Proof.
  unfold sub. replace (2 * length s + 2)%nat with (S (2 * length s + 1)) by lia.
  reflexivity.
Qed.

Lemma sub_nil (pat : pattern) (repl : template) :
  match_at pat [] = None -> sub pat repl [] = [].
Proof. intros E. rewrite sub_unfold, E. reflexivity. Qed.

Lemma sub_miss (pat : pattern) (repl : template) (c : char) (s : str) :
  match_at pat (c :: s) = None -> sub pat repl (c :: s) = c :: sub pat repl s.
Proof.
  intros E. rewrite sub_unfold, E. f_equal. apply sub_go_fuel; simpl; lia.
Qed.

Lemma sub_hit (pat : pattern) (repl : template) (g : option str) (m rest : str) :
  m <> [] -> match_at pat (m ++ rest) = Some (g, rest) ->
  sub pat repl (m ++ rest) = expand repl g ++ sub pat repl rest.
Proof.
  intros Hm E. rewrite sub_unfold, E. f_equal.
  assert (Hlen : (length rest < length (m ++ rest))%nat).
  { rewrite length_app. destruct m; [congruence|]. simpl. lia. }
  assert (El : (length rest =? length (m ++ rest))%nat = false).
  { apply Nat.eqb_neq. lia. }
  rewrite El. unfold sub. apply sub_go_fuel; lia.
Qed.

(** A stretch of text at whose characters no match starts is copied. *)
Lemma sub_skip (pat : pattern) (repl : template) (ok : char -> bool) (t s : str) :
  (forall c rest, ok c = true -> match_at pat (c :: rest) = None) ->
  forallb ok t = true ->
  sub pat repl (t ++ s) = t ++ sub pat repl s.
Proof.
  intros Hok. induction t as [|c t IH]; simpl; [reflexivity|].
  rewrite andb_true_iff. intros [Hc Ht].
  rewrite sub_miss by (apply Hok, Hc). f_equal. apply IH, Ht.
Qed.

Lemma sub_id (pat : pattern) (repl : template) (ok : char -> bool) (s : str) :
  (forall c rest, ok c = true -> match_at pat (c :: rest) = None) ->
  match_at pat [] = None ->
  forallb ok s = true ->
  sub pat repl s = s.
Proof.
  intros Hok Hnil Hs. rewrite <- (app_nil_r s) at 1.
  rewrite (sub_skip pat repl ok s [] Hok Hs), sub_nil by exact Hnil.
  apply app_nil_r.
Qed.

(** A pattern that begins with a literal character matches only there. *)
Lemma match_at_lit_head (a c : char) (l : str) (pat : pattern) (rest : str) :
  a <> c -> match_at (Lit (a :: l) :: pat) (c :: rest) = None.
Proof.
  intros H. unfold match_at. simpl. apply N.eqb_neq in H. now rewrite H.
Qed.

Lemma sub_lit_absent (a : char) (l : str) (pat : pattern) (repl : template) (s : str) :
  hd_error l = Some a -> ~ In a s -> sub (Lit l :: pat) repl s = s.
Proof.
  destruct l as [|a' l]; [discriminate|]. intros [= ->].
  intros H. apply sub_id with (ok := fun c => negb (a =? c)%N).
  - intros c rest Hc. apply match_at_lit_head. apply negb_true_iff, N.eqb_neq in Hc.
    exact Hc.
  - reflexivity.
  - apply forallb_forall. intros c Hc. apply negb_true_iff, N.eqb_neq.
    intros ->. contradiction.
Qed.

(** *** Texts without some characters *)

Lemma without_In (chars s : str) (a : char) :
  without chars s = true -> In a chars -> ~ In a s.
Proof.
  unfold without. rewrite forallb_forall. intros H Ha Hs.
  apply H in Hs. apply negb_true_iff in Hs.
  assert (one_of chars a = true); [|congruence].
  apply existsb_exists. exists a. split; [exact Ha|apply N.eqb_refl].
Qed.

Lemma without_app (chars s t : str) :
  without chars (s ++ t) = without chars s && without chars t.
Proof. apply forallb_app. Qed.

Lemma find_absent (a : char) (l s : str) : ~ In a s -> (find s (a :: l) =? -1)%Z = true.
Proof. intros H. apply find_none. intros Ho. apply H, (occurs_In _ _ _ Ho). Qed.

(** *** Replacements that commute *)

Lemma diverge_startswith (a b t : str) :
  diverge a b = true ->
  startswith a (b ++ t) = false /\ startswith b (a ++ t) = false.
Proof.
  revert b; induction a as [|c a IH]; intros [|d b]; simpl; try discriminate.
  rewrite orb_true_iff, negb_true_iff. intros [H|H].
  - rewrite H. rewrite N.eqb_sym in H. rewrite H. auto.
  - apply IH in H as [H1 H2]. rewrite H1, H2, !andb_false_r. auto.
Qed.

(** Characters that do not begin [old] are copied. *)
Lemma replace_skip (a : char) (old new p s : str) :
  ~ In a p -> replace (p ++ s) (a :: old) new = p ++ replace s (a :: old) new.
Proof.
  induction p as [|c p IH]; intros H; [reflexivity|]. simpl app.
  rewrite replace_miss.
  - f_equal. apply IH. intros Hin. apply H. now right.
  - apply startswith_head. intros ->. apply H. now left.
Qed.

(** A replacement whose new text begins with a character that [b] does not
    have cannot complete an occurrence of [b]. *)
Lemma startswith_replace_inv (a x b t : str) (x0 : char) :
  a <> [] -> hd_error x = Some x0 -> ~ In x0 b ->
  startswith b (replace t a x) = true -> startswith b t = true.
Proof.
  intros Ha Hx. destruct x as [|x0' x]; [discriminate|]. injection Hx as ->.
  revert t; induction b as [|d b IH]; intros t Hb; [reflexivity|].
  destruct t as [|e t]; [now rewrite replace_nil|].
  destruct (startswith a (e :: t)) eqn:E.
  - apply startswith_inv in E. rewrite E, replace_hit by exact Ha. simpl.
    rewrite andb_true_iff, N.eqb_eq. intros [-> _]. exfalso. apply Hb. now left.
  - rewrite replace_miss by exact E. simpl.
    rewrite !andb_true_iff. intros [H1 H2]. split; [exact H1|].
    apply IH; [|exact H2]. intros Hin. apply Hb. now right.
Qed.

Lemma independent_sym (r1 r2 : str * str) :
  independent r1 r2 = true -> independent r2 r1 = true.
Proof.
  destruct r1 as [a x], r2 as [b y]. unfold independent.
  rewrite !andb_true_iff. intros [[[[[[H1 H2] H3] H4] H5] H6] H7].
  repeat split; try assumption.
  clear - H7. revert b H7; induction a as [|c a IH]; intros [|d b]; simpl;
    try discriminate.
  rewrite !orb_true_iff, N.eqb_sym. intros [H|H]; auto.
Qed.

(** One half of the commutation: where [a] occurs at the start. *)
Lemma replace_over_token (a x b y t : str) :
  independent (a, x) (b, y) = true ->
  replace (replace (a ++ t) a x) b y = x ++ replace (replace t a x) b y
  /\ replace (replace (a ++ t) b y) a x = x ++ replace (replace t b y) a x.
Proof.
  unfold independent. rewrite !andb_true_iff, !negb_true_iff.
  intros [[[[[[Hx Hy] Hxb] Hya] Hba] Hab] Hd].
  destruct a as [|a0 a]; [discriminate|]. destruct b as [|b0 b]; [discriminate|].
  split.
  - rewrite replace_hit by discriminate. apply replace_skip.
    intros Hin. exact (without_In _ _ _ Hxb Hin (or_introl eq_refl)).
  - assert (E : replace ((a0 :: a) ++ t) (b0 :: b) y
                = (a0 :: a) ++ replace t (b0 :: b) y).
    { simpl app. rewrite replace_miss.
      - f_equal. apply replace_skip. apply (without_In _ _ _ Hba). now left.
      - apply (diverge_startswith _ _ t Hd). }
    rewrite E. apply replace_hit. discriminate.
Qed.

Lemma replace_commute_bounded (r1 r2 : str * str) (n : nat) (s : str) :
  independent r1 r2 = true -> (length s <= n)%nat ->
  replace (replace s (fst r1) (snd r1)) (fst r2) (snd r2)
  = replace (replace s (fst r2) (snd r2)) (fst r1) (snd r1).
Proof.
  destruct r1 as [a x], r2 as [b y]. simpl fst; simpl snd. intros Hi.
  pose proof (independent_sym _ _ Hi) as Hi'.
  assert (Ha : a <> [] /\ b <> []).
  { revert Hi. unfold independent. destruct a, b; simpl;
      rewrite ?andb_false_r; try discriminate. split; discriminate. }
  destruct Ha as [Ha Hb].
  assert (Hcreate : forall a x b y c t,
             independent (a, x) (b, y) = true -> a <> [] ->
             startswith b (c :: t) = false ->
             startswith b (c :: replace t a x) = false).
  { clear. intros a x b y c t Hi Ha E.
    destruct (startswith b (c :: replace t a x)) eqn:E'; [|reflexivity].
    rewrite <- E. destruct b as [|b0 b]; [reflexivity|]. simpl in E' |- *.
    apply andb_true_iff in E' as [-> E']. simpl. symmetry.
    revert Hi. unfold independent. rewrite !andb_true_iff, !negb_true_iff.
    intros [[[[[[Hx _] Hxb] _] _] _] _].
    destruct x as [|x0 x]; [discriminate|].
    apply (@startswith_replace_inv a (x0 :: x) b t x0 Ha eq_refl); [|exact E'].
    intros Hin. exact (without_In _ _ _ Hxb (or_introl eq_refl) (or_intror Hin)). }
  revert s; induction n as [|n IH]; intros s Hn.
  { destruct s; [|simpl in Hn; lia]. now rewrite !replace_nil. }
  destruct s as [|c s]; [now rewrite !replace_nil|].
  destruct (startswith a (c :: s)) eqn:Ea.
  - apply startswith_inv in Ea. rewrite Ea.
    destruct (replace_over_token _ _ _ _ (skipn (length a) (c :: s)) Hi) as [-> ->].
    f_equal. apply IH.
    apply (f_equal (@length char)) in Ea. rewrite length_app in Ea.
    destruct a; [congruence|]. simpl in *. lia.
  - destruct (startswith b (c :: s)) eqn:Eb.
    + apply startswith_inv in Eb. rewrite Eb.
      destruct (replace_over_token _ _ _ _ (skipn (length b) (c :: s)) Hi') as [-> ->].
      f_equal. apply IH.
      apply (f_equal (@length char)) in Eb. rewrite length_app in Eb.
      destruct b; [congruence|]. simpl in *. lia.
    + rewrite (replace_miss _ _ _ _ Ea), (replace_miss _ _ _ _ Eb).
      rewrite (replace_miss _ _ _ _ (Hcreate _ _ _ _ _ _ Hi Ha Eb)).
      rewrite (replace_miss _ _ _ _ (Hcreate _ _ _ _ _ _ Hi' Hb Ea)).
      f_equal. apply IH. simpl in Hn. lia.
Qed.

(** Two independent replacements give the same text in either order. *)
Lemma replace_commute (r1 r2 : str * str) (s : str) :
  independent r1 r2 = true ->
  apply_table [r1; r2] s = apply_table [r2; r1] s.
Proof.
  intros Hi. unfold apply_table. simpl.
  exact (@replace_commute_bounded r1 r2 (length s) s Hi (Nat.le_refl _)).
Qed.

(** Replacements that commute two by two may be applied in any order. *)
Lemma apply_table_permutation (table table' : list (str * str)) :
  (forall r1 r2, In r1 table -> In r2 table ->
                 forall s, apply_table [r1; r2] s = apply_table [r2; r1] s) ->
  Permutation table table' ->
  forall s, apply_table table s = apply_table table' s.
Proof.
  intros Hc Hp. induction Hp as [|r l l' Hp IH|r1 r2 l|l l' l'' Hp1 IH1 Hp2 IH2];
    intros s.
  - reflexivity.
  - unfold apply_table in *. simpl. apply IH.
    intros r1 r2 H1 H2. apply Hc; now right.
  - unfold apply_table in *. simpl. f_equal.
    exact (Hc r2 r1 (or_introl eq_refl) (or_intror (or_introl eq_refl)) s).
  - rewrite IH1 by exact Hc. apply IH2.
    intros r1 r2 H1 H2. apply Hc; eapply Permutation_in; try eassumption;
      apply Permutation_sym; exact Hp1.
Qed.

(** *** The text of an integer *)

Lemma string_of_uint_digits (d : Decimal.uint) :
  Forall (fun c => (48 <= c <= 57)%N) (u (NilEmpty.string_of_uint d)).
Proof.
  induction d; simpl; constructor; try exact IHd; try (cbv; split; discriminate).
Qed.

Lemma str_of_int_digits (n : Z) :
  Forall (fun c => c = 45%N \/ (48 <= c <= 57)%N) (str_of_int n).
Proof.
  assert (Hu : forall d, Forall (fun c => c = 45%N \/ (48 <= c <= 57)%N)
                           (u (NilZero.string_of_uint d))).
  { intros d. eapply Forall_impl; [intros c Hc; right; exact Hc|].
    destruct d; try apply string_of_uint_digits.
    repeat constructor; cbv; discriminate. }
  unfold str_of_int. destruct (Z.to_int n) as [d|d]; simpl NilZero.string_of_int.
  - apply Hu.
  - change (u (String "-" (NilZero.string_of_uint d)))
      with (45%N :: u (NilZero.string_of_uint d)).
    constructor; [now left|apply Hu].
Qed.

(** *** [escape_latex_chars] *)

Lemma flat_map_step (A B : Type) (f : A -> list B) (a : A) (l : list A) :
  flat_map f (a :: l) = f a ++ flat_map f l.
Proof. reflexivity. Qed.

Lemma escape_latex_chars_eq (text : str) :
  escape_latex_chars text
  = flat_map (fun c => if one_of SPECIALS c then [92%N; c] else [c]) text.
Proof.
  unfold escape_latex_chars. fold SPECIALS.
  induction text as [|c text IH].
  - apply sub_nil. reflexivity.
  - rewrite flat_map_step. destruct (one_of SPECIALS c) eqn:E.
    + change (c :: text) with ([c] ++ text). rewrite sub_hit with (g := Some [c]).
      * rewrite IH. reflexivity.
      * discriminate.
      * unfold match_at. cbn [match_items repeat once app]. rewrite E. reflexivity.
    + rewrite sub_miss; [now rewrite IH|].
      unfold match_at. cbn [match_items repeat once]. rewrite E. reflexivity.
Qed.

Lemma escape_latex_chars_int (n : Z) : escape_latex_chars (str_of_int n) = str_of_int n.
Proof.
  rewrite escape_latex_chars_eq.
  pose proof (str_of_int_digits n) as H. revert H. generalize (str_of_int n).
  intros t H. induction H as [|c l Hc _ IH]; [reflexivity|].
  rewrite flat_map_step.
  assert (one_of SPECIALS c = false) as ->; [|simpl app; f_equal; exact IH].
  destruct (one_of SPECIALS c) eqn:E; [exfalso|reflexivity].
  apply existsb_exists in E as (d & Hd & Heq). apply N.eqb_eq in Heq. subst d.
  simpl in Hd. destruct Hc as [->|Hc]; intuition (try discriminate; lia).
Qed.

(** *** Fields without markup *)

Lemma replace_line_breaks_plain (field : str) :
  without (u "<&" ++ nl) field = true -> replace_line_breaks field = field.
Proof.
  intros H. unfold replace_line_breaks. cbn [fold_left fst snd].
  assert (H10 : ~ In 10%N field) by (apply (@without_In _ _ _ H); simpl; tauto).
  assert (H60 : ~ In 60%N field) by (apply (@without_In _ _ _ H); simpl; tauto).
  assert (H38 : ~ In 38%N field) by (apply (@without_In _ _ _ H); simpl; tauto).
  rewrite (@replace_absent 10%N nl [] field eq_refl H10).
  rewrite (@replace_absent 60%N (u "<br>") nl field eq_refl H60).
  rewrite (@replace_absent 60%N (u "<br />") nl field eq_refl H60).
  rewrite (@replace_absent 60%N (u "<div>") nl field eq_refl H60).
  rewrite (@replace_absent 60%N (u "</div>") [] field eq_refl H60).
  apply (@replace_absent 38%N (u "&nbsp;") (u " ") field eq_refl H38).
Qed.

Lemma export_field_single_line (field : str) :
  ~ occurs (u "[latex]") (replace_line_breaks field) ->
  ~ occurs nl (replace_line_breaks field) ->
  export_field field = TAB ++ u "\xplain{" ++ replace_line_breaks field ++ u "}".
Proof.
  intros Hl Hn. unfold export_field.
  apply find_none in Hl, Hn. rewrite Hl, Hn. reflexivity.
Qed.

Lemma export_field_multi_line (field : str) :
  ~ occurs (u "[latex]") (replace_line_breaks field) ->
  occurs nl (replace_line_breaks field) ->
  export_field field
  = TAB ++ u "\begin{plain}" ++ nl
      ++ TAB ++ TAB
      ++ replace (strip_new_lines (convert_html_to_latex (replace_line_breaks field)))
           nl (nl ++ TAB ++ TAB)
      ++ nl ++ TAB ++ u "\end{plain}".
Proof.
  intros Hl Hn. unfold export_field.
  apply find_none in Hl. rewrite Hl, (find_present _ nl Hn).
  cbn [negb]. cbv zeta. rewrite <- !app_assoc. reflexivity.
Qed.

Lemma export_field_plain (field : str) :
  without (u "<&[" ++ nl) field = true ->
  export_field field = TAB ++ u "\xplain{" ++ field ++ u "}".
Proof.
  intros H.
  assert (H' : without (u "<&" ++ nl) field = true).
  { unfold without in *. rewrite forallb_forall in *. intros c Hc.
    apply H in Hc. apply negb_true_iff in Hc. apply negb_true_iff.
    unfold one_of in *. simpl in *.
    repeat (apply orb_false_iff in Hc as [? Hc]).
    repeat (apply orb_false_iff; split); assumption. }
  rewrite export_field_single_line; rewrite (@replace_line_breaks_plain _ H').
  - reflexivity.
  - intros Ho. apply occurs_In in Ho. revert Ho. apply (@without_In _ _ _ H). simpl; tauto.
  - intros Ho. apply occurs_In in Ho. revert Ho. apply (@without_In _ _ _ H). simpl; tauto.
Qed.

(** *** [convert_html_to_latex] on text without markup *)

Lemma without_subset (chars chars' s : str) :
  (forall c, In c chars' -> In c chars) ->
  without chars s = true -> without chars' s = true.
Proof.
  intros Hsub. unfold without. rewrite !forallb_forall. intros H c Hc.
  specialize (H c Hc). apply negb_true_iff in H. apply negb_true_iff.
  destruct (one_of chars' c) eqn:E; [|reflexivity].
  apply existsb_exists in E as (d & Hd & Hdc).
  assert (one_of chars c = true); [|congruence].
  apply existsb_exists. exists d. split; [apply Hsub, Hd|exact Hdc].
Qed.

Lemma one_of_false (chars : str) (c d : char) :
  negb (one_of chars c) = true -> In d chars -> (d =? c)%N = false.
Proof.
  rewrite negb_true_iff. intros H Hd.
  destruct (d =? c)%N eqn:E; [|reflexivity].
  assert (one_of chars c = true); [|congruence].
  apply existsb_exists. exists d. auto.
Qed.

(** No match of [\n*\[latex\]] starts at a character that is neither a line
    break nor a bracket. *)
Lemma match_at_latex_mark (c : char) (rest : str) :
  negb (one_of (u "[" ++ nl) c) = true ->
  match_at [Cls false newline Star; Lit (u "[latex]")] (c :: rest) = None.
Proof.
  intros H.
  assert (H91 : (91 =? c)%N = false) by (apply (one_of_false _ _ _ H); simpl; tauto).
  assert (H10 : (10 =? c)%N = false) by (apply (one_of_false _ _ _ H); simpl; tauto).
  unfold match_at. cbn [match_items repeat greedy]. unfold newline, NL.
  rewrite N.eqb_sym, H10.
  change (startswith (u "[latex]") (c :: rest))
    with ((91 =? c)%N && startswith (u "latex]") rest).
  rewrite H91. reflexivity.
Qed.

Lemma convert_html_to_latex_plain (text : str) :
  without (u "<&[" ++ nl) text = true -> convert_html_to_latex text = text.
Proof.
  intros H.
  assert (H60 : ~ In 60%N text) by (apply (without_In _ _ _ H); simpl; tauto).
  assert (H38 : ~ In 38%N text) by (apply (without_In _ _ _ H); simpl; tauto).
  assert (H91 : ~ In 91%N text) by (apply (without_In _ _ _ H); simpl; tauto).
  assert (H10 : ~ In 10%N text) by (apply (without_In _ _ _ H); simpl; tauto).
  unfold convert_html_to_latex. cbn [fold_left fst snd].
  rewrite (replace_absent 38%N (u "&amp;") (u "&") text eq_refl H38).
  rewrite (replace_absent 38%N (u "&lt;") (u "<") text eq_refl H38).
  rewrite (replace_absent 38%N (u "&gt;") (u ">") text eq_refl H38).
  rewrite (sub_id [Cls false newline Star; Lit (u "[latex]")] []
             (fun c => negb (one_of (u "[" ++ nl) c)) text match_at_latex_mark eq_refl).
  2:{ apply (without_subset (u "<&[" ++ nl)); [|exact H]. simpl. tauto. }
  rewrite (sub_lit_absent 91%N (u "[/latex]") _ _ text eq_refl H91).
  rewrite (sub_lit_absent 60%N (u "<ul") _ _ text eq_refl H60).
  rewrite (sub_lit_absent 60%N (u "</ul>") _ _ text eq_refl H60).
  rewrite (sub_lit_absent 60%N (u "<ol") _ _ text eq_refl H60).
  rewrite (sub_lit_absent 60%N (u "</ol>") _ _ text eq_refl H60).
  rewrite (sub_lit_absent 60%N (u "<li") _ _ text eq_refl H60).
  rewrite (sub_lit_absent 60%N (u "</li>") _ _ text eq_refl H60).
  rewrite (sub_lit_absent 60%N (u "<b>") _ _ text eq_refl H60).
  rewrite (sub_lit_absent 60%N (u "<i>") _ _ text eq_refl H60).
  rewrite (sub_lit_absent 60%N (u "<u>") _ _ text eq_refl H60).
  rewrite (sub_lit_absent 60%N (u "<sub>") _ _ text eq_refl H60).
  rewrite (sub_lit_absent 60%N (u "<sup>") _ _ text eq_refl H60).
  rewrite (sub_lit_absent 10%N nl _ _ text eq_refl H10).
  apply (sub_lit_absent 60%N (u "<") _ _ text eq_refl H60).
Qed.

(** What [without (u "<&[" ++ nl)] says, character by character. *)
Ltac absent_facts H H60 H38 H91 H10 :=
  pose proof (without_In _ _ 60%N H (or_introl eq_refl)) as H60;
  pose proof (without_In _ _ 38%N H (or_intror (or_introl eq_refl))) as H38;
  pose proof (without_In _ _ 91%N H (or_intror (or_intror (or_introl eq_refl)))) as H91;
  pose proof (without_In _ _ 10%N H
                (or_intror (or_intror (or_intror (or_introl eq_refl))))) as H10.

(** *** [convert_html_to_latex] on a verbatim zone without markup *)

Lemma convert_html_to_latex_stages (text : str) :
  convert_html_to_latex text = rewrite_tags (remove_marks (decode_entities text)).
Proof.
  unfold convert_html_to_latex, rewrite_tags, remove_marks, decode_entities.
  reflexivity.
Qed.

Lemma decode_entities_absent (text : str) : ~ In 38%N text -> decode_entities text = text.
Proof.
  intros H. unfold decode_entities. cbn [fold_left fst snd].
  rewrite (replace_absent 38%N (u "&amp;") (u "&") text eq_refl H).
  rewrite (replace_absent 38%N (u "&lt;") (u "<") text eq_refl H).
  apply (replace_absent 38%N (u "&gt;") (u ">") text eq_refl H).
Qed.

Lemma rewrite_tags_absent (text : str) :
  ~ In 60%N text -> ~ In 10%N text -> rewrite_tags text = text.
Proof.
  intros H60 H10. unfold rewrite_tags. cbv zeta.
  rewrite (sub_lit_absent 60%N (u "<ul") _ _ text eq_refl H60).
  rewrite (sub_lit_absent 60%N (u "</ul>") _ _ text eq_refl H60).
  rewrite (sub_lit_absent 60%N (u "<ol") _ _ text eq_refl H60).
  rewrite (sub_lit_absent 60%N (u "</ol>") _ _ text eq_refl H60).
  rewrite (sub_lit_absent 60%N (u "<li") _ _ text eq_refl H60).
  rewrite (sub_lit_absent 60%N (u "</li>") _ _ text eq_refl H60).
  rewrite (sub_lit_absent 60%N (u "<b>") _ _ text eq_refl H60).
  rewrite (sub_lit_absent 60%N (u "<i>") _ _ text eq_refl H60).
  rewrite (sub_lit_absent 60%N (u "<u>") _ _ text eq_refl H60).
  rewrite (sub_lit_absent 60%N (u "<sub>") _ _ text eq_refl H60).
  rewrite (sub_lit_absent 60%N (u "<sup>") _ _ text eq_refl H60).
  rewrite (sub_lit_absent 10%N nl _ _ text eq_refl H10).
  apply (sub_lit_absent 60%N (u "<") _ _ text eq_refl H60).
Qed.

Lemma remove_marks_verbatim (content : str) :
  ~ In 91%N content -> ~ In 10%N content ->
  remove_marks (u "[latex]" ++ content ++ u "[/latex]") = content.
Proof.
  intros H91 H10. unfold remove_marks.
  assert (Hok : forallb (fun c => negb (one_of (u "[" ++ nl) c)) content = true).
  { apply forallb_forall. intros c Hc. apply negb_true_iff.
    destruct (one_of (u "[" ++ nl) c) eqn:E; [exfalso|reflexivity].
    apply existsb_exists in E as (d & Hd & Hdc). apply N.eqb_eq in Hdc. subst d.
    simpl in Hd. destruct Hd as [<-|[<-|[]]]; contradiction. }
  rewrite (sub_hit [Cls false newline Star; Lit (u "[latex]")] [] None
             (u "[latex]") (content ++ u "[/latex]")) by (discriminate || reflexivity).
  rewrite (sub_skip [Cls false newline Star; Lit (u "[latex]")] []
             (fun c => negb (one_of (u "[" ++ nl) c)) content (u "[/latex]")
             match_at_latex_mark Hok).
  replace (sub [Cls false newline Star; Lit (u "[latex]")] [] (u "[/latex]"))
    with (u "[/latex]") by (vm_compute; reflexivity).
  change (expand [] None) with (@nil char). rewrite app_nil_l.
  rewrite (sub_skip [Lit (u "[/latex]"); Cls false newline Star] []
             (fun c => negb (one_of (u "[" ++ nl) c)) content (u "[/latex]")).
  2:{ intros c rest Hc. apply match_at_lit_head. apply N.eqb_neq.
      apply (one_of_false _ _ _ Hc). simpl. tauto. }
  2:{ exact Hok. }
  replace (sub [Lit (u "[/latex]"); Cls false newline Star] [] (u "[/latex]"))
    with (@nil char) by (vm_compute; reflexivity).
  apply app_nil_r.
Qed.

Lemma convert_html_to_latex_verbatim (content : str) :
  without (u "<&[" ++ nl) content = true ->
  convert_html_to_latex (u "[latex]" ++ content ++ u "[/latex]") = content.
Proof.
  intros H. absent_facts H H60 H38 H91 H10.
  rewrite convert_html_to_latex_stages, decode_entities_absent.
  - rewrite (remove_marks_verbatim content H91 H10).
    apply rewrite_tags_absent; assumption.
  - rewrite !in_app_iff. intros [Hin|[Hin|Hin]]; try contradiction;
      simpl in Hin; intuition discriminate.
Qed.

Lemma export_field_verbatim (field : str) :
  occurs (u "[latex]") (replace_line_breaks field) ->
  export_field field
  = let text := convert_html_to_latex (replace_line_breaks field) in
    if (find text nl =? -1)%Z then TAB ++ u "\xfield{" ++ text ++ u "}"
    else TAB ++ u "\begin{field}" ++ nl
           ++ TAB ++ TAB ++ replace (strip_new_lines text) nl (nl ++ TAB ++ TAB)
           ++ nl ++ TAB ++ u "\end{field}".
Proof.
  intros Ho. unfold export_field.
  destruct (find (replace_line_breaks field) (u "[latex]") =? -1)%Z eqn:E.
  - apply find_none in E. contradiction.
  - cbn [negb]. cbv zeta.
    destruct (find (convert_html_to_latex (replace_line_breaks field)) nl =? -1)%Z;
      [reflexivity|].
    rewrite <- !app_assoc. reflexivity.
Qed.

Lemma export_field_verbatim_plain (content : str) :
  without (u "<&[" ++ nl) content = true ->
  export_field (u "[latex]" ++ content ++ u "[/latex]")
  = TAB ++ u "\xfield{" ++ content ++ u "}".
Proof.
  intros H.
  assert (Hr : replace_line_breaks (u "[latex]" ++ content ++ u "[/latex]")
               = u "[latex]" ++ content ++ u "[/latex]").
  { apply replace_line_breaks_plain. rewrite !without_app.
    rewrite (without_subset (u "<&[" ++ nl) (u "<&" ++ nl) content);
      [reflexivity| |exact H].
    simpl. tauto. }
  rewrite export_field_verbatim; rewrite Hr.
  - cbv zeta. rewrite (convert_html_to_latex_verbatim content H).
    assert (E : (find content nl =? -1)%Z = true).
    { apply (find_absent 10%N [] content).
      apply (without_In _ _ _ H). simpl; tauto. }
    rewrite E. reflexivity.
  - exists [], (content ++ u "[/latex]"). reflexivity.
Qed.

(** *** Texts made of stretches where nothing matches *)












(** *** A bold stretch in a field of two lines *)










(** *** Blank lines before a text that begins with no white space *)







(** *** [strip] *)





Lemma lstrip_before_nonspace (A T : str) (c : char) :
  is_space c = false -> lstrip (A ++ c :: T) = lstrip A ++ c :: T.
Proof.
  intros Hc. induction A as [|a A IH]; simpl.
  - now rewrite Hc.
  - destruct (is_space a); [exact IH|reflexivity].
Qed.

Lemma rstrip_after_nonspace (U B : str) (c : char) :
  is_space c = false -> rstrip (U ++ c :: B) = U ++ c :: rstrip B.
Proof.
  intros Hc. unfold rstrip.
  rewrite rev_app_distr. cbn [rev]. rewrite <- app_assoc. cbn [app].
  rewrite (lstrip_before_nonspace (rev B) (rev U) c Hc).
  rewrite rev_app_distr. cbn [rev]. rewrite rev_involutive, <- app_assoc.
  reflexivity.
Qed.

(** Replacing one character is done character by character. *)
Lemma replace_char (c : char) (new s : str) :
  replace s [c] new = flat_map (fun d => if (c =? d)%N then new else [d]) s.
Proof.
  induction s as [|d s IH]; [reflexivity|]. rewrite flat_map_step.
  destruct (c =? d)%N eqn:E.
  - apply N.eqb_eq in E. subst d. change (c :: s) with ([c] ++ s).
    rewrite replace_hit by discriminate. now rewrite IH.
  - rewrite replace_miss by (simpl; now rewrite E). now rewrite IH.
Qed.





Section BoldField.
Variables before bold after : str.
Hypothesis Hbefore : without (u "<&[" ++ nl) before = true.
Hypothesis Hbold : without (u "<&[" ++ nl) bold = true.
Hypothesis Hafter : without (u "<&[" ++ nl) after = true.



Hypothesis Hleft : lstrip before = before.
Hypothesis Hright : rstrip after = after.
Hypothesis Hsecond : after <> [].



End BoldField.

(** *** A bold stretch between two texts of any number of lines *)



Section BoldAnywhere.
Variables pre bold post : str.
Hypothesis Hpre : without (u "<&") pre = true.
Hypothesis Hbold : without (u "<&" ++ nl) bold = true.
Hypothesis Hpost : without (u "<&") post = true.
Hypothesis Hopen :
  ~ occurs (u "[latex]") (concat [pre; u "<b>"; bold; u "</b>"; post]).
Hypothesis Hclose :
  ~ occurs (u "[/latex]") (concat [pre; u "<b>"; bold; u "</b>"; post]).


End BoldAnywhere.





(** ** The trim of the trailing empty fields *)

Lemma trim_loop_cons (l : str) (rest : list str) :
  trim_loop (l :: rest) =
    if str_eqb l EMPTY_FIELD then trim_loop rest else Ok (l :: rest).
Proof. reflexivity. Qed.

Lemma trim_loop_spec (rev_lines : list str) :
  (exists l, In l rev_lines /\ l <> EMPTY_FIELD) ->
  exists n l kept,
    rev_lines = List.repeat EMPTY_FIELD n ++ l :: kept
    /\ l <> EMPTY_FIELD
    /\ trim_loop rev_lines = Ok (l :: kept).
Proof.
  induction rev_lines as [|l rest IH]; intros [x [Hin Hx]]; [destruct Hin|].
  rewrite trim_loop_cons.
  destruct (str_eqb l EMPTY_FIELD) eqn:E.
  - apply str_eqb_eq in E; subst l.
    destruct Hin as [<-|Hin]; [congruence|].
    destruct IH as (n & l & kept & -> & Hl & Ht); [eauto|].
    exists (S n), l, kept. repeat split; assumption.
  - apply str_eqb_neq in E. exists 0%nat, l, rest. repeat split; assumption.
Qed.

Lemma fold_left_append (A B : Type) (f : A -> B) (l : list A) (acc : list B) :
  fold_left (fun acc a => acc ++ [f a]) l acc = acc ++ map f l.
Proof.
  revert acc; induction l as [|a l IH]; intros acc; simpl.
  - now rewrite app_nil_r.
  - rewrite IH, <- app_assoc. reflexivity.
Qed.

(** The lines of a note before the trim: the begin marker, the identifier
    line when it is asked for, and one entry per field, in order. *)
Lemma untrimmed_lines_eq (options : ExportOptions) (row : Row) :
  untrimmed_lines options row =
    BEGIN_NOTE
      :: (if include_guid options then [id_line row] else [])
      ++ map export_field (split_fields (flds row)).
Proof.
  unfold untrimmed_lines. rewrite fold_left_append.
  destruct (include_guid options); reflexivity.
Qed.

Lemma remove_empty_fields_spec (lines : list str) :
  exists n kept,
    BEGIN_NOTE :: lines = (BEGIN_NOTE :: kept) ++ List.repeat EMPTY_FIELD n
    /\ last (BEGIN_NOTE :: kept) [] <> EMPTY_FIELD
    /\ remove_empty_fields (BEGIN_NOTE :: lines) = Ok (BEGIN_NOTE :: kept).
Proof.
  destruct (@trim_loop_spec (rev (BEGIN_NOTE :: lines))) as (n & l & kept & E & Hl & Ht).
  { exists BEGIN_NOTE. split; [apply in_rev; rewrite rev_involutive; now left|].
    vm_compute. discriminate. }
  assert (E' : BEGIN_NOTE :: lines = rev (l :: kept) ++ List.repeat EMPTY_FIELD n).
  { rewrite <- (rev_involutive (BEGIN_NOTE :: lines)), E, rev_app_distr.
    f_equal. clear. induction n as [|n IH]; [reflexivity|].
    simpl. rewrite IH. clear.
    induction n as [|n IH]; [reflexivity|]. simpl. now rewrite <- IH. }
  destruct (rev (l :: kept)) as [|b kept'] eqn:R.
  { apply (f_equal (@length str)) in R. rewrite length_rev in R. discriminate. }
  assert (b = BEGIN_NOTE) by (simpl in E'; congruence). subst b.
  exists n, kept'. split; [exact E'|]. split.
  - rewrite <- R. simpl. rewrite last_last. exact Hl.
  - unfold remove_empty_fields. rewrite Ht. simpl bind. simpl in R.
    rewrite R. reflexivity.
Qed.

(** The body of the loop over the rows raises nothing. *)
Lemma export_row_ok (options : ExportOptions) (row : Row) :
  exists block, export_row options row = Ok block.
Proof.
  unfold export_row, note_lines. rewrite untrimmed_lines_eq.
  destruct (remove_empty_fields_spec
              ((if include_guid options then [id_line row] else [])
                 ++ map export_field (split_fields (flds row))))
    as (n & kept & _ & _ & ->).
  simpl. eauto.
Qed.

Lemma export_rows_spec (col : Collection) (options : ExportOptions) (rows : list Row) :
  exists blocks,
    Forall2 (fun row block => export_row options row = Ok block) rows blocks
    /\ forall model notes,
        export_rows col options rows model notes =
          Ok (fold_left (fun _ row => Some (models_get col (notetype_id row))) rows model,
              notes ++ blocks).
Proof.
  induction rows as [|row rows IH].
  - exists []. split; [constructor|]. intros. simpl. now rewrite app_nil_r.
  - destruct IH as (blocks & HF & IH).
    destruct (export_row_ok options row) as [block Hb].
    exists (block :: blocks). split; [constructor; assumption|].
    intros model notes. simpl. rewrite Hb. simpl. rewrite IH, <- app_assoc.
    reflexivity.
Qed.

Lemma fold_left_last_model (col : Collection) (rows : list Row) (row : Row)
      (model : option (option Notetype)) :
  fold_left (fun _ r => Some (models_get col (notetype_id r))) (rows ++ [row]) model
  = Some (models_get col (notetype_id row)).
Proof. rewrite fold_left_app. reflexivity. Qed.

Lemma remove_empty_fields_all (lines : list str) :
  Forall (fun l => l = EMPTY_FIELD) lines ->
  remove_empty_fields (BEGIN_NOTE :: lines) = Ok [BEGIN_NOTE].
Proof.
  intros HF.
  destruct (remove_empty_fields_spec lines) as (n & kept & E & Hl & ->).
  injection E as E. rewrite E in HF. apply Forall_app in HF as [HF _].
  destruct kept as [|k kept]; [reflexivity|]. exfalso. apply Hl.
  change (last (BEGIN_NOTE :: k :: kept) []) with (last (k :: kept) []).
  assert (Hin : In (last (k :: kept) []) (k :: kept)).
  { destruct (exists_last (l := k :: kept)) as (l' & x & ->); [discriminate|].
    rewrite last_last. apply in_or_app. right. now left. }
  rewrite Forall_forall in HF. apply HF, Hin.
Qed.

Lemma tag_line_not_empty_field (t : str) :
  TAB ++ u "\tags{" ++ t ++ u "}" <> EMPTY_FIELD.
Proof. vm_compute. discriminate. Qed.

(** The lines of a note: what the trim keeps, the tags and the end marker. *)
Lemma trailing_lines_kept (options : ExportOptions) (row : Row) :
  exists n kept,
    untrimmed_lines options row = (BEGIN_NOTE :: kept) ++ List.repeat EMPTY_FIELD n
    /\ last (BEGIN_NOTE :: kept) [] <> EMPTY_FIELD
    /\ note_lines options row
       = Ok ((BEGIN_NOTE :: kept) ++ tag_lines options row ++ [END_NOTE]).
Proof.
  pose proof (untrimmed_lines_eq options row) as Hu.
  destruct (remove_empty_fields_spec
              ((if include_guid options then [id_line row] else [])
                 ++ map export_field (split_fields (flds row))))
    as (n & kept & E & Hl & Ht).
  rewrite <- Hu in E, Ht. exists n, kept. split; [exact E|]. split; [exact Hl|].
  unfold note_lines. rewrite Ht. simpl bind. rewrite <- app_assoc. reflexivity.
Qed.

(** ** The document *)

Lemma export_note_latex_rows (col : Collection) (options : ExportOptions) (self : State)
      (query : str) (rows : list Row) (last_row : Row) (model : Notetype) :
  db_query (limit options) = Ok query ->
  db_execute col query = rows ++ [last_row] ->
  models_get col (notetype_id last_row) = Some model ->
  exists blocks,
    Forall2 (fun row block => export_row options row = Ok block) (rows ++ [last_row]) blocks
    /\ export_note_latex col options self =
         (Ok tt,
          {| count := Some (length (rows ++ [last_row]));
             files := (out_path options,
                       CODING_LINE ++ latexPre model ++ nl
                         ++ join nl blocks ++ nl ++ latexPost model)
                      :: files self |}).
Proof.
  intros Hq Hrows Hmodel.
  destruct (export_rows_spec col options (rows ++ [last_row])) as (blocks & HF & Hrun).
  exists blocks. split; [exact HF|].
  unfold export_note_latex. rewrite Hq, Hrows, Hrun, fold_left_last_model, Hmodel.
  simpl app at 1. rewrite (Forall2_length HF).
  unfold CODING_LINE. rewrite <- !app_assoc. reflexivity.
Qed.

(** ** Properties of the specification *)

(** C8: a selection criterion that is neither the by-container variant nor
    the by-explicit-identifiers variant makes [db_query] raise the error that
    names the two supported types, and the export stops there, before any
    row is read and with nothing changed; for the two supported variants
    [db_query] returns a query and raises nothing. *)
Theorem db_query_fails_fast :
  (forall limit, supported limit = false ->
     db_query limit = Raise (Exception LIMIT_ERROR) /\ LIMIT_ERROR <> [])
  /\ (forall limit, supported limit = true -> exists query, db_query limit = Ok query)
  /\ (forall col options self, supported (limit options) = false ->
        export_note_latex col options self = (Raise (Exception LIMIT_ERROR), self)).
Proof.
  split; [|split].
  - intros [d|ids|t]; simpl; try discriminate. intros _. split; [reflexivity|].
    vm_compute. discriminate.
  - intros [d|ids|t]; simpl; try discriminate; eauto.
  - intros col options self. unfold export_note_latex.
    destruct (limit options); simpl; try discriminate. reflexivity.
Qed.

Lemma db_query_fails_fast_witness :
  db_query (OtherLimit (u "CardIdsLimit")) = Raise (Exception LIMIT_ERROR)
  /\ (exists query, db_query (DeckIdLimit 7) = Ok query)
  /\ (exists query, db_query (NoteIdsLimit [3; 4]%Z) = Ok query)
  /\ export_note_latex (sample_col [sample_row])
       (sample_options true true (OtherLimit (u "NoneType"))) fresh
     = (Raise (Exception LIMIT_ERROR), fresh).
Proof.
  destruct db_query_fails_fast as (H1 & H2 & H3).
  split; [apply (H1 (OtherLimit (u "CardIdsLimit"))); reflexivity|].
  split; [apply (H2 (DeckIdLimit 7)); reflexivity|].
  split; [apply (H2 (NoteIdsLimit [3; 4]%Z)); reflexivity|].
  apply H3. reflexivity.
Defined.

(** C4: for every row, the trim removes from the end of the lines exactly a
    run of empty one-line plain fields, raises nothing and keeps the begin
    marker; the line it stops at is not an empty field, the end marker is
    the last line of the note and the line before it is not an empty field;
    when every field renders empty and neither the identifier nor the tags
    are included, the note is the begin marker followed by the end
    marker. *)
Theorem trailing_empty_fields_trimmed (options : ExportOptions) (row : Row) :
  exists n kept,
    untrimmed_lines options row = (BEGIN_NOTE :: kept) ++ List.repeat EMPTY_FIELD n
    /\ remove_empty_fields (untrimmed_lines options row) = Ok (BEGIN_NOTE :: kept)
    /\ last (BEGIN_NOTE :: kept) [] <> EMPTY_FIELD
    /\ note_lines options row
       = Ok ((BEGIN_NOTE :: kept) ++ tag_lines options row ++ [END_NOTE])
    /\ last ((BEGIN_NOTE :: kept) ++ tag_lines options row) [] <> EMPTY_FIELD
    /\ (include_guid options = false -> include_tags options = false ->
        Forall (fun field => export_field field = EMPTY_FIELD) (split_fields (flds row)) ->
        note_lines options row = Ok [BEGIN_NOTE; END_NOTE]
        /\ export_row options row = Ok (u "\begin{note}" ++ nl ++ u "\end{note}" ++ nl)).
Proof.
  pose proof (untrimmed_lines_eq options row) as Hu.
  destruct (remove_empty_fields_spec
              ((if include_guid options then [id_line row] else [])
                 ++ map export_field (split_fields (flds row))))
    as (n & kept & E & Hl & Ht).
  rewrite <- Hu in E, Ht.
  assert (Hn : note_lines options row
               = Ok ((BEGIN_NOTE :: kept) ++ tag_lines options row ++ [END_NOTE])).
  { unfold note_lines. rewrite Ht. simpl bind. rewrite <- app_assoc. reflexivity. }
  exists n, kept.
  split; [exact E|]. split; [exact Ht|]. split; [exact Hl|]. split; [exact Hn|].
  split.
  - unfold tag_lines. destruct (include_tags options); [|now rewrite app_nil_r].
    destruct (negb (str_eqb (strip (tags row)) [])); [|now rewrite app_nil_r].
    rewrite last_last. apply tag_line_not_empty_field.
  - intros Hguid Htags Hempty.
    assert (Hlines : note_lines options row = Ok [BEGIN_NOTE; END_NOTE]).
    { unfold note_lines. rewrite Hu, Hguid. simpl app at 1.
      rewrite remove_empty_fields_all by (apply Forall_map; exact Hempty).
      unfold tag_lines. rewrite Htags. reflexivity. }
    split; [exact Hlines|]. unfold export_row. rewrite Hlines. reflexivity.
Qed.

Lemma trailing_empty_fields_trimmed_witness :
  export_row (sample_options false false (DeckIdLimit 1)) empty_row
  = Ok (u "\begin{note}" ++ nl ++ u "\end{note}" ++ nl).
Proof.
  destruct (trailing_empty_fields_trimmed (sample_options false false (DeckIdLimit 1)) empty_row)
    as (n & kept & _ & _ & _ & _ & _ & H).
  apply H; [reflexivity|reflexivity|].
  change (split_fields (flds empty_row)) with [@nil char; []; []].
  repeat constructor.
Defined.

(** C10: when the query returns no row, [export_note_latex] raises the
    error of the unbound variable [model] before it opens the output file:
    no file is written or overwritten.  An export that returns has read at
    least one row. *)
Theorem export_of_no_rows_raises (col : Collection) (options : ExportOptions) (self : State) :
  (forall query,
      db_query (limit options) = Ok query -> db_execute col query = [] ->
      export_note_latex col options self
      = (Raise (UnboundLocalError (u "model")),
         {| count := Some 0%nat; files := files self |}))
  /\ (forall st,
        export_note_latex col options self = (Ok tt, st) ->
        exists query, db_query (limit options) = Ok query /\ db_execute col query <> []).
Proof.
  split.
  - intros query Hq Hrows. unfold export_note_latex. rewrite Hq, Hrows. reflexivity.
  - intros st. unfold export_note_latex.
    destruct (db_query (limit options)) as [query|e]; [|discriminate].
    intros H. exists query. split; [reflexivity|]. intros Hrows.
    rewrite Hrows in H. simpl in H. discriminate.
Qed.

Lemma export_of_no_rows_raises_witness :
  export_note_latex (sample_col []) (sample_options true true (DeckIdLimit 1)) fresh
  = (Raise (UnboundLocalError (u "model")), {| count := Some 0%nat; files := [] |}).
Proof.
  apply (proj1 (export_of_no_rows_raises (sample_col [])
                  (sample_options true true (DeckIdLimit 1)) fresh)
           (u "SELECT n.guid, n.id, n.flds, n.tags, n.mid "
              ++ u "FROM notes n JOIN cards c ON n.id = c.nid "
              ++ u "WHERE c.did IN "
              ++ u "(SELECT id FROM decks "
              ++ u "WHERE name LIKE ("
              ++ u "SELECT name FROM decks WHERE id=" ++ str_of_int 1 ++ u ") || '%')"));
    reflexivity.
Defined.

(** C9: when at least one row is read, the document holds the header of
    the note type of the last row once, before the notes, and its footer
    once, after them; the note types of the other rows are looked up and
    never used: two collections that return the same rows and agree on the
    note type of the last row write the same document. *)
Theorem header_and_footer_of_last_row
        (col col' : Collection) (options : ExportOptions) (self : State)
        (query : str) (rows : list Row) (last_row : Row) (model : Notetype) :
  db_query (limit options) = Ok query ->
  db_execute col query = rows ++ [last_row] ->
  db_execute col' query = rows ++ [last_row] ->
  models_get col (notetype_id last_row) = Some model ->
  models_get col' (notetype_id last_row) = Some model ->
  (exists blocks st,
      Forall2 (fun row block => export_row options row = Ok block) (rows ++ [last_row]) blocks
      /\ export_note_latex col options self = (Ok tt, st)
      /\ files st = (out_path options,
                     CODING_LINE ++ latexPre model ++ nl
                       ++ join nl blocks ++ nl ++ latexPost model) :: files self)
  /\ export_note_latex col' options self = export_note_latex col options self.
Proof.
  intros Hq Hr Hr' Hm Hm'.
  destruct (export_note_latex_rows col options self query rows last_row model Hq Hr Hm)
    as (blocks & HF & He).
  destruct (export_note_latex_rows col' options self query rows last_row model Hq Hr' Hm')
    as (blocks' & HF' & He').
  assert (blocks' = blocks).
  { clear - HF HF'. revert blocks' HF'.
    induction HF as [|row block rs bs Hb _ IH]; intros blocks' HF'; inversion HF'; subst.
    - reflexivity.
    - f_equal; [congruence|]. apply IH. assumption. }
  subst blocks'. split.
  - exists blocks. eexists. split; [exact HF|]. split; [exact He|]. reflexivity.
  - rewrite He, He'. reflexivity.
Qed.

Lemma header_and_footer_of_last_row_witness :
  exists body,
    files (snd (export_note_latex (sample_col [sample_row; other_row])
                  (sample_options false false (DeckIdLimit 1)) fresh))
    = [(u "notes.tex", CODING_LINE ++ u "pre2" ++ nl ++ body ++ nl ++ u "post2")].
Proof.
  destruct (@header_and_footer_of_last_row
              (sample_col [sample_row; other_row]) (sample_col [sample_row; other_row])
              (sample_options false false (DeckIdLimit 1)) fresh
              (u "SELECT n.guid, n.id, n.flds, n.tags, n.mid "
                 ++ u "FROM notes n JOIN cards c ON n.id = c.nid "
                 ++ u "WHERE c.did IN "
                 ++ u "(SELECT id FROM decks "
                 ++ u "WHERE name LIKE ("
                 ++ u "SELECT name FROM decks WHERE id=" ++ str_of_int 1 ++ u ") || '%')")
              [sample_row] other_row other_type)
    as [(blocks & st & _ & He & Hf) _]; try reflexivity.
  exists (join nl blocks). rewrite He. exact Hf.
Defined.

(** The notes of the sample collection with one row, and the document the
    claim C5 expects for it. *)
Lemma document_is_not_a_plain_concatenation :
  exists block,
    export_row (sample_options false false (DeckIdLimit 1)) sample_row = Ok block
    /\ export_note_latex (sample_col [sample_row])
         (sample_options false false (DeckIdLimit 1)) fresh
       = (Ok tt,
          {| count := Some 1%nat;
             files := [(u "notes.tex",
                        CODING_LINE ++ u "PRE" ++ nl ++ block ++ nl ++ u "POST")] |})
    /\ files (snd (export_note_latex (sample_col [sample_row])
                     (sample_options false false (DeckIdLimit 1)) fresh))
       <> [(u "notes.tex", CODING_LINE ++ u "PRE" ++ block ++ u "POST")].
Proof.
  eexists. split; [vm_compute; reflexivity|]. split; [vm_compute; reflexivity|].
  vm_compute. discriminate.
Qed.

(** C5 (amended): for every non-empty sequence of N rows whose last row has
    a known note type, every row yields a block, and the export writes one
    file at the output path, once, after the last row: the encoding line,
    the header, a line break, the blocks in fetch order with a line break
    between two of them, a line break and the footer; the count it sets is
    N. *)
Theorem document_framing
        (col : Collection) (options : ExportOptions) (self : State)
        (query : str) (rows : list Row) (last_row : Row) (model : Notetype) :
  db_query (limit options) = Ok query ->
  db_execute col query = rows ++ [last_row] ->
  models_get col (notetype_id last_row) = Some model ->
  exists blocks,
    Forall2 (fun row block => export_row options row = Ok block) (rows ++ [last_row]) blocks
    /\ length blocks = length (rows ++ [last_row])
    /\ export_note_latex col options self =
         (Ok tt,
          {| count := Some (length (rows ++ [last_row]));
             files := (out_path options,
                       CODING_LINE ++ latexPre model ++ nl
                         ++ join nl blocks ++ nl ++ latexPost model)
                      :: files self |}).
Proof.
  intros Hq Hr Hm.
  destruct (export_note_latex_rows col options self query rows last_row model Hq Hr Hm)
    as (blocks & HF & He).
  exists blocks. split; [exact HF|]. split; [|exact He].
  symmetry. exact (Forall2_length HF).
Qed.

Lemma document_framing_witness :
  exists blocks,
    length blocks = 2%nat
    /\ export_note_latex (sample_col [sample_row; empty_row])
         (sample_options true true (NoteIdsLimit [123; 125]%Z)) fresh
       = (Ok tt,
          {| count := Some 2%nat;
             files := [(u "notes.tex",
                        CODING_LINE ++ u "PRE" ++ nl ++ join nl blocks ++ nl ++ u "POST")] |}).
Proof.
  destruct (@document_framing
              (sample_col [sample_row; empty_row])
              (sample_options true true (NoteIdsLimit [123; 125]%Z)) fresh
              (u "SELECT n.guid, n.id, n.flds, n.tags, n.mid "
                 ++ u "FROM notes n JOIN cards c ON n.id = c.nid "
                 ++ u "WHERE n.id IN " ++ str_of_tuple [123; 125]%Z)
              [sample_row] empty_row sample_type)
    as (blocks & _ & Hlen & He); try reflexivity.
  exists blocks. split; [exact Hlen|exact He].
Defined.

(** C2: a field that, after the line breaks are replaced, holds neither
    the mark [[latex]] nor a line break is exported as the one-line plain
    field [    \xplain{<field>}] around that text as it is: entities are
    not decoded, tags are not rewritten and nothing is escaped; so
    [Hello & World] gives [    \xplain{Hello & World}]. *)
Theorem single_line_plain_field :
  (forall field,
      ~ occurs (u "[latex]") (replace_line_breaks field) ->
      ~ occurs nl (replace_line_breaks field) ->
      export_field field = TAB ++ u "\xplain{" ++ replace_line_breaks field ++ u "}")
  /\ export_field (u "Hello & World") = u "    \xplain{Hello & World}"
  /\ export_field (u "a &amp; <i>b</i> 100% #1")
     = u "    \xplain{a &amp; <i>b</i> 100% #1}".
Proof.
  split; [exact export_field_single_line|]. split; vm_compute; reflexivity.
Qed.

Lemma single_line_plain_field_witness :
  export_field (u "x &lt; y_1")
  = TAB ++ u "\xplain{" ++ replace_line_breaks (u "x &lt; y_1") ++ u "}".
Proof.
  apply (proj1 single_line_plain_field (u "x &lt; y_1"));
    apply find_none; vm_compute; reflexivity.
Defined.

Lemma id_line_not_empty_field (row : Row) : id_line row <> EMPTY_FIELD.
Proof.
  intros H. apply (f_equal (@hd char 0%N)) in H. discriminate H.
Qed.

(** C7: with the identifier included, the second line of a note is the
    numeric identifier of the row, passed through [escape_latex_chars],
    which puts a backslash before each of [# $ % ^ & _ } { ~], and wrapped
    in [\xplain{...}]; the text of an integer has none of these characters,
    so that 123 gives [\xplain{123}].  The lines of the fields are those of
    [export_field], with or without the identifier, and [export_field]
    escapes nothing: for every field, each of its four branches wraps the
    text that [replace_line_breaks], [convert_html_to_latex] and
    [strip_new_lines] leave, and nothing else; a field without markup is
    exported as it is, also inside a verbatim zone, and the special
    characters of a verbatim or of a multi-line field stay unescaped. *)
Theorem identifier_line_escaped_only :
  (forall options row, include_guid options = true ->
      untrimmed_lines options row
      = BEGIN_NOTE
          :: (u "\xplain{" ++ escape_latex_chars (str_of_int (note_id row)) ++ u "}")
          :: map export_field (split_fields (flds row))
      /\ exists rest,
          note_lines options row
          = Ok (BEGIN_NOTE :: (u "\xplain{" ++ str_of_int (note_id row) ++ u "}") :: rest))
  /\ (forall options row, include_guid options = false ->
        untrimmed_lines options row
        = BEGIN_NOTE :: map export_field (split_fields (flds row)))
  /\ (forall text,
        escape_latex_chars text
        = flat_map (fun c => if one_of SPECIALS c then [92%N; c] else [c]) text)
  /\ id_line sample_row = u "\xplain{123}"
  /\ (forall field,
        without (u "<&[" ++ nl) field = true ->
        export_field field = TAB ++ u "\xplain{" ++ field ++ u "}")
  /\ (forall field,
        let text := replace_line_breaks field in
        let latex := convert_html_to_latex text in
        (occurs (u "[latex]") text -> ~ occurs nl latex ->
         export_field field = TAB ++ u "\xfield{" ++ latex ++ u "}")
        /\ (occurs (u "[latex]") text -> occurs nl latex ->
            export_field field
            = TAB ++ u "\begin{field}" ++ nl
                ++ TAB ++ TAB ++ replace (strip_new_lines latex) nl (nl ++ TAB ++ TAB)
                ++ nl ++ TAB ++ u "\end{field}")
        /\ (~ occurs (u "[latex]") text -> ~ occurs nl text ->
            export_field field = TAB ++ u "\xplain{" ++ text ++ u "}")
        /\ (~ occurs (u "[latex]") text -> occurs nl text ->
            export_field field
            = TAB ++ u "\begin{plain}" ++ nl
                ++ TAB ++ TAB ++ replace (strip_new_lines latex) nl (nl ++ TAB ++ TAB)
                ++ nl ++ TAB ++ u "\end{plain}"))
  /\ (forall content,
        without (u "<&[" ++ nl) content = true ->
        export_field (u "[latex]" ++ content ++ u "[/latex]")
        = TAB ++ u "\xfield{" ++ content ++ u "}")
  /\ export_field (u "[latex]a_1 # b[/latex]") = u "    \xfield{a_1 # b}"
  /\ export_field (u "50% of {x}<br>a_b")
     = TAB ++ u "\begin{plain}" ++ nl
         ++ TAB ++ TAB ++ u "50% of {x}" ++ nl
         ++ TAB ++ TAB ++ u "a_b" ++ nl
         ++ TAB ++ u "\end{plain}".
Proof.
  split; [|split; [|split; [|split; [|split; [|split; [|split; [|split]]]]]]].
  - intros options row Hg. pose proof (untrimmed_lines_eq options row) as Hu.
    rewrite Hg in Hu. split; [exact Hu|].
    destruct (trailing_lines_kept options row) as (n & kept & E & Hl & Hn).
    rewrite Hn. rewrite Hu in E. cbn [app] in E. injection E as E.
    destruct kept as [|k kept]; cbn [app] in E.
    + exfalso. destruct n as [|n]; cbn [List.repeat] in E; [discriminate E|].
      apply (f_equal (@hd str [])) in E. cbn [hd] in E.
      exact (id_line_not_empty_field row E).
    + apply (f_equal (@hd str [])) in E. cbn [hd] in E. subst k. unfold id_line.
      rewrite escape_latex_chars_int. cbn [app]. eauto.
  - intros options row Hg. pose proof (untrimmed_lines_eq options row) as Hu.
    rewrite Hg in Hu. exact Hu.
  - exact escape_latex_chars_eq.
  - vm_compute. reflexivity.
  - exact export_field_plain.
  - intros field text latex. subst text latex. repeat split.
    + intros Ho Hn. rewrite (export_field_verbatim field Ho). cbv zeta.
      apply find_none in Hn. rewrite Hn. reflexivity.
    + intros Ho Hn. rewrite (export_field_verbatim field Ho). cbv zeta.
      rewrite (find_present _ nl Hn). reflexivity.
    + exact (export_field_single_line field).
    + exact (export_field_multi_line field).
  - exact export_field_verbatim_plain.
  - vm_compute. reflexivity.
  - vm_compute. reflexivity.
Qed.

Lemma identifier_line_escaped_only_witness :
  untrimmed_lines (sample_options true false (DeckIdLimit 1)) sample_row
  = [BEGIN_NOTE; u "\xplain{123}"; u "    \xplain{Front}"; u "    \xplain{Back}"]
  /\ untrimmed_lines (sample_options false false (DeckIdLimit 1)) sample_row
     = [BEGIN_NOTE; u "    \xplain{Front}"; u "    \xplain{Back}"]
  /\ export_field (u "a_b 100% {c} #d ~ ^") = u "    \xplain{a_b 100% {c} #d ~ ^}".
Proof.
  destruct identifier_line_escaped_only as (H1 & H2 & _ & _ & H5 & _ & _ & _).
  split; [|split].
  - rewrite (proj1 (H1 (sample_options true false (DeckIdLimit 1)) sample_row eq_refl)).
    vm_compute. reflexivity.
  - rewrite (H2 (sample_options false false (DeckIdLimit 1)) sample_row eq_refl).
    vm_compute. reflexivity.
  - rewrite (H5 (u "a_b 100% {c} #d ~ ^") eq_refl). vm_compute. reflexivity.
Defined.

Lemma pairwise_independent (table : list (str * str)) :
  (forall r1 r2, In r1 table -> In r2 table ->
                 r1 = r2 \/ independent r1 r2 = true) ->
  forall order text,
    Permutation order table -> apply_table order text = apply_table table text.
Proof.
  intros H order text Hp. symmetry. apply apply_table_permutation.
  - intros r1 r2 H1 H2 s. destruct (H r1 r2 H1 H2) as [->|Hi]; [reflexivity|].
    apply replace_commute, Hi.
  - apply Permutation_sym, Hp.
Qed.

(** The claim C6 fails on a text without line break: deleting [</div>]
    first completes a [<br>] that the order of the table leaves as it is. *)
Lemma line_break_replacements_do_not_commute :
  ~ (forall order text,
        Permutation order BREAK_TABLE -> ~ In NL text ->
        apply_table order text = apply_table BREAK_TABLE text).
Proof.
  intros H.
  specialize (H [DIV_END; BR; BR_SLASH; DIV; NBSP] (u "<b</div>r>")).
  assert (Hp : Permutation [DIV_END; BR; BR_SLASH; DIV; NBSP] BREAK_TABLE).
  { apply (Permutation_cons_app [BR; BR_SLASH; DIV] [NBSP] DIV_END).
    apply Permutation_refl. }
  specialize (H Hp). vm_compute in H.
  assert (E : [10%N] = [60%N; 98%N; 114%N; 62%N]); [|discriminate E].
  apply H. intros [E|[E|[E|[E|[E|[E|[E|[E|[E|[E|[]]]]]]]]]]]; discriminate E.
Qed.

(** C6 (amended): [replace_line_breaks] deletes the line breaks and then
    applies the five replacements in the order of the table, [<br>],
    [<br />], [<div>], [</div>], [&nbsp;].  The three replacements by a
    line break give the same text in any order, for every text, and so do
    [<br>], [<div>] and [&nbsp;].  The other pairs do not commute, on texts
    without line break: writing the space of [&nbsp;] can complete a
    [<br />], and deleting [</div>] can complete each of the four other
    tokens. *)
Theorem line_break_replacements_order :
  (forall text,
      replace_line_breaks text = apply_table BREAK_TABLE (replace text nl []))
  /\ (forall order text,
        Permutation order [BR; BR_SLASH; DIV] ->
        apply_table order text = apply_table [BR; BR_SLASH; DIV] text)
  /\ (forall order text,
        Permutation order [BR; DIV; NBSP] ->
        apply_table order text = apply_table [BR; DIV; NBSP] text)
  /\ (~ In NL (u "<br&nbsp;/>")
      /\ apply_table [BR_SLASH; NBSP] (u "<br&nbsp;/>") = u "<br />"
      /\ apply_table [NBSP; BR_SLASH] (u "<br&nbsp;/>") = nl)
  /\ Forall (fun r => exists text,
                 ~ In NL text
                 /\ apply_table [r; DIV_END] text <> apply_table [DIV_END; r] text)
            [BR; BR_SLASH; DIV; NBSP].
Proof.
  split; [reflexivity|]. split; [|split; [|split]].
  - apply pairwise_independent. intros r1 r2 H1 H2. simpl in H1, H2.
    destruct H1 as [<-|[<-|[<-|[]]]]; destruct H2 as [<-|[<-|[<-|[]]]];
      (now left) || (right; reflexivity).
  - apply pairwise_independent. intros r1 r2 H1 H2. simpl in H1, H2.
    destruct H1 as [<-|[<-|[<-|[]]]]; destruct H2 as [<-|[<-|[<-|[]]]];
      (now left) || (right; reflexivity).
  - split; [|split; vm_compute; reflexivity].
    intros H. simpl in H. intuition discriminate.
  - repeat constructor.
    + exists (u "<b</div>r>"). split; [|vm_compute; discriminate].
      intros H. simpl in H. intuition discriminate.
    + exists (u "<b</div>r />"). split; [|vm_compute; discriminate].
      intros H. simpl in H. intuition discriminate.
    + exists (u "<d</div>iv>"). split; [|vm_compute; discriminate].
      intros H. simpl in H. intuition discriminate.
    + exists (u "&nb</div>sp;"). split; [|vm_compute; discriminate].
      intros H. simpl in H. intuition discriminate.
Qed.

Lemma line_break_replacements_order_witness :
  apply_table [DIV; BR; BR_SLASH] (u "a<br>b<div>c</div><br />d")
  = u "a" ++ nl ++ u "b" ++ nl ++ u "c</div>" ++ nl ++ u "d".
Proof.
  rewrite (proj1 (proj2 line_break_replacements_order)
             [DIV; BR; BR_SLASH] (u "a<br>b<div>c</div><br />d")).
  - vm_compute. reflexivity.
  - apply (Permutation_cons_app [BR; BR_SLASH] [] DIV). apply Permutation_refl.
Defined.







(** ** Further properties of the exporter *)

(** X1: when the note type of the last row is unknown to the collection,
    [export_note_latex] raises [TypeError] at [model["latexPre"]]: the count
    is set to the number of rows and no file is written. *)
Theorem unknown_note_type_raises
        (col : Collection) (options : ExportOptions) (self : State)
        (query : str) (rows : list Row) (last_row : Row) :
  db_query (limit options) = Ok query ->
  db_execute col query = rows ++ [last_row] ->
  models_get col (notetype_id last_row) = None ->
  export_note_latex col options self
  = (Raise TypeError,
     {| count := Some (length (rows ++ [last_row])); files := files self |}).
Proof.
  intros Hq Hr Hm.
  destruct (export_rows_spec col options (rows ++ [last_row])) as (blocks & HF & Hrun).
  unfold export_note_latex. rewrite Hq, Hr, Hrun, fold_left_last_model, Hm.
  cbn [app]. rewrite (Forall2_length HF). reflexivity.
Qed.

Lemma unknown_note_type_raises_witness :
  export_note_latex
    (sample_col [sample_row; {| guid := u "M"; note_id := 9; flds := u "x";
                                tags := []; notetype_id := 3 |}])
    (sample_options true true (DeckIdLimit 1)) fresh
  = (Raise TypeError, {| count := Some 2%nat; files := [] |}).
Proof.
  apply (unknown_note_type_raises
           (sample_col [sample_row; {| guid := u "M"; note_id := 9; flds := u "x";
                                       tags := []; notetype_id := 3 |}])
           (sample_options true true (DeckIdLimit 1)) fresh
           (u "SELECT n.guid, n.id, n.flds, n.tags, n.mid "
              ++ u "FROM notes n JOIN cards c ON n.id = c.nid "
              ++ u "WHERE c.did IN "
              ++ u "(SELECT id FROM decks "
              ++ u "WHERE name LIKE ("
              ++ u "SELECT name FROM decks WHERE id=" ++ str_of_int 1 ++ u ") || '%')")
           [sample_row]
           {| guid := u "M"; note_id := 9; flds := u "x"; tags := []; notetype_id := 3 |});
    reflexivity.
Defined.

Lemma replace_char_absent (c : char) (s : str) : ~ In c (replace s [c] []).
Proof.
  rewrite replace_char. induction s as [|d s IH]; [intros []|].
  rewrite flat_map_step. destruct (c =? d)%N eqn:E; [exact IH|].
  intros [H|H]; [|exact (IH H)]. apply N.eqb_neq in E. congruence.
Qed.

(** X2: the line breaks typed in a field are without effect: a field and
    the field without them are exported alike. *)
Theorem typed_line_breaks_are_ignored (field : str) :
  replace_line_breaks (replace field nl []) = replace_line_breaks field
  /\ export_field (replace field nl []) = export_field field.
Proof.
  assert (E : replace (replace field nl []) nl [] = replace field nl []).
  { apply (replace_absent 10%N nl [] _ eq_refl). apply replace_char_absent. }
  assert (Er : replace_line_breaks (replace field nl []) = replace_line_breaks field).
  { unfold replace_line_breaks. rewrite E. reflexivity. }
  split; [exact Er|]. unfold export_field. rewrite Er. reflexivity.
Qed.

(** X3: [escape_latex_chars] works character by character: the escape of
    two texts put together is their escapes put together, a text without
    special character is left as it is, and every special character makes
    the text one character longer. *)
Theorem escape_latex_chars_composes :
  (forall s t, escape_latex_chars (s ++ t) = escape_latex_chars s ++ escape_latex_chars t)
  /\ (forall s, without SPECIALS s = true -> escape_latex_chars s = s)
  /\ (forall s, length (escape_latex_chars s)
                = (length s + length (filter (one_of SPECIALS) s))%nat).
Proof.
  split; [|split].
  - intros s t. rewrite !escape_latex_chars_eq. apply flat_map_app.
  - intros s H. rewrite escape_latex_chars_eq. unfold without in H.
    induction s as [|c s IH]; [reflexivity|].
    cbn [forallb] in H. apply andb_true_iff in H as [Hc Hs].
    rewrite flat_map_step. apply negb_true_iff in Hc. rewrite Hc.
    cbn [app]. rewrite (IH Hs). reflexivity.
  - intros s. rewrite escape_latex_chars_eq. unfold char.
    induction s as [|c s IH]; [reflexivity|].
    rewrite flat_map_step, length_app. cbn [filter].
    destruct (one_of SPECIALS c); cbn [length]; unfold char in *; lia.
Qed.

Lemma escape_latex_chars_composes_witness :
  escape_latex_chars (u "Jx1-2") = u "Jx1-2"
  /\ escape_latex_chars (u "a_b" ++ u "50%")
     = escape_latex_chars (u "a_b") ++ escape_latex_chars (u "50%").
Proof.
  destruct escape_latex_chars_composes as (H1 & H2 & _). split.
  - apply H2. reflexivity.
  - apply H1.
Defined.

Lemma trim_loop_run (l rest : list str) (x : str) :
  Forall (fun e => e = EMPTY_FIELD) l -> x <> EMPTY_FIELD ->
  trim_loop (l ++ x :: rest) = Ok (x :: rest).
Proof.
  intros Hl Hx. induction Hl as [|e l He _ IH]; cbn [app]; rewrite trim_loop_cons.
  - apply str_eqb_neq in Hx. now rewrite Hx.
  - subst e. rewrite str_eqb_refl. exact IH.
Qed.

(** X4: the identifier line is never taken for an empty field: when every
    field of a note renders empty, the identifier is included and the tags
    are not, the note is the begin marker, the identifier line and the end
    marker. *)
Theorem identifier_line_survives_trim (options : ExportOptions) (row : Row) :
  include_guid options = true -> include_tags options = false ->
  Forall (fun field => export_field field = EMPTY_FIELD) (split_fields (flds row)) ->
  note_lines options row
  = Ok [BEGIN_NOTE; u "\xplain{" ++ str_of_int (note_id row) ++ u "}"; END_NOTE].
Proof.
  intros Hg Ht Hf. unfold note_lines.
  rewrite untrimmed_lines_eq, Hg. cbn [app]. unfold remove_empty_fields.
  cbn [rev]. rewrite <- !app_assoc. cbn [app].
  rewrite (trim_loop_run _ [BEGIN_NOTE] (id_line row)).
  - cbn [bind rev app]. unfold tag_lines. rewrite Ht. cbn [app].
    unfold id_line. rewrite escape_latex_chars_int. reflexivity.
  - apply Forall_rev, Forall_map. exact Hf.
  - apply id_line_not_empty_field.
Qed.

Lemma identifier_line_survives_trim_witness :
  note_lines (sample_options true false (DeckIdLimit 1)) empty_row
  = Ok [BEGIN_NOTE; u "\xplain{125}"; END_NOTE].
Proof.
  rewrite (identifier_line_survives_trim
             (sample_options true false (DeckIdLimit 1)) empty_row eq_refl eq_refl).
  - vm_compute. reflexivity.
  - change (split_fields (flds empty_row)) with [@nil char; []; []].
    repeat constructor.
Defined.

Lemma lstrip_head (s rest : str) (c : char) :
  lstrip s = c :: rest -> is_space c = false.
Proof.
  induction s as [|d s IH]; simpl; [discriminate|].
  destruct (is_space d) eqn:E; [exact IH|]. intros [= <- _]. exact E.
Qed.

Lemma lstrip_nil (s : str) : lstrip s = [] <-> forallb is_space s = true.
Proof.
  induction s as [|d s IH]; simpl; [tauto|].
  destruct (is_space d); simpl; [exact IH|]. split; discriminate.
Qed.

Lemma strip_head (s rest : str) (c : char) :
  strip s = c :: rest -> is_space c = false.
Proof.
  unfold strip. destruct (lstrip s) as [|d r] eqn:E; [discriminate|].
  pose proof (lstrip_head s r d E) as Hd.
  change (d :: r) with ([] ++ d :: r).
  rewrite (rstrip_after_nonspace [] r d Hd). cbn [app]. intros [= <- _]. exact Hd.
Qed.

Lemma strip_last (s body : str) (c : char) :
  strip s = body ++ [c] -> is_space c = false.
Proof.
  unfold strip, rstrip. intros H. apply (f_equal (@rev char)) in H.
  rewrite rev_involutive, rev_app_distr in H. cbn [rev app] in H.
  exact (lstrip_head _ _ c H).
Qed.

Lemma strip_nil (s : str) : strip s = [] <-> forallb is_space s = true.
Proof.
  rewrite <- lstrip_nil. unfold strip. split.
  - destruct (lstrip s) as [|d r] eqn:E; [reflexivity|].
    change (d :: r) with ([] ++ d :: r).
    rewrite (rstrip_after_nonspace [] r d (lstrip_head s r d E)). discriminate.
  - intros ->. reflexivity.
Qed.

(** X5: the tags give a line only when they are asked for and hold a
    character that is no white space; the line holds the tags without their
    outer white space, as they are. *)
Theorem tags_line (options : ExportOptions) (row : Row) :
  (include_tags options = false -> tag_lines options row = [])
  /\ (forallb is_space (tags row) = true -> tag_lines options row = [])
  /\ (include_tags options = true -> forallb is_space (tags row) = false ->
      tag_lines options row = [TAB ++ u "\tags{" ++ strip (tags row) ++ u "}"]
      /\ (forall c rest, strip (tags row) = c :: rest -> is_space c = false)
      /\ (forall body c, strip (tags row) = body ++ [c] -> is_space c = false)).
Proof.
  unfold tag_lines. split; [|split].
  - intros ->. reflexivity.
  - intros H. apply strip_nil in H. rewrite H. destruct (include_tags options); reflexivity.
  - intros -> H. split; [|split].
    + destruct (str_eqb (strip (tags row)) []) eqn:E; [|reflexivity].
      apply str_eqb_eq, strip_nil in E. congruence.
    + intros c rest. apply strip_head.
    + intros body c. apply strip_last.
Qed.

Lemma tags_line_witness :
  tag_lines (sample_options false true (DeckIdLimit 1)) sample_row
  = [u "    \tags{t1 t2}"]
  /\ tag_lines (sample_options false true (DeckIdLimit 1))
       {| guid := []; note_id := 1; flds := []; tags := u "  "; notetype_id := 1 |}
     = [].
Proof.
  split.
  - rewrite (proj1 (proj2 (proj2 (tags_line (sample_options false true (DeckIdLimit 1))
                                            sample_row)) eq_refl eq_refl)).
    vm_compute. reflexivity.
  - apply (proj1 (proj2 (tags_line (sample_options false true (DeckIdLimit 1)) _))).
    reflexivity.
Defined.

(** X6: the text [strip_new_lines] returns neither begins nor ends with
    white space. *)
Theorem strip_new_lines_is_trimmed (text : str) :
  (forall c rest, strip_new_lines text = c :: rest -> is_space c = false)
  /\ (forall body c, strip_new_lines text = body ++ [c] -> is_space c = false).
Proof.
  unfold strip_new_lines. split.
  - intros c rest. apply strip_head.
  - intros body c. apply strip_last.
Qed.

Lemma strip_new_lines_is_trimmed_witness :
  strip_new_lines (nl ++ u " a" ++ nl ++ nl ++ nl ++ u "b " ++ nl)
  = u "a" ++ nl ++ nl ++ u "b"
  /\ is_space 97%N = false /\ is_space 98%N = false.
Proof.
  split; [vm_compute; reflexivity|]. split.
  - apply (proj1 (strip_new_lines_is_trimmed
                    (nl ++ u " a" ++ nl ++ nl ++ nl ++ u "b " ++ nl))
             97%N (nl ++ nl ++ u "b")).
    vm_compute. reflexivity.
  - apply (proj2 (strip_new_lines_is_trimmed
                    (nl ++ u " a" ++ nl ++ nl ++ nl ++ u "b " ++ nl))
             (u "a" ++ nl ++ nl) 98%N).
    vm_compute. reflexivity.
Defined.

